(** * Playlist suggestion scripts: batch updater and query endpoint

    A shallow embedding of [api/daily_updater.py] and
    [api/sugerir_playlists.py.py].  Both scripts walk a hard-coded mapping
    from category names to seed channel names, ask the video platform's
    search library for channels and then for playlists, and collect one
    record per playlist found.

    Python values are embedded as an untyped JSON-like universe, the
    exceptions the scripts can raise as a result type, and everything that
    touches the outside (the two searches, the clock, the file written, the
    standard output) as explicit state passing over a [World]. *)

From Stdlib Require Import String Ascii ZArith List Bool Lia DecimalString.
From stdpp Require Import gmap strings list fin_maps.
Import ListNotations.
Open Scope string_scope.
Open Scope Z_scope.
Open Scope list_scope.
Set Warnings "-register-all".
Set Default Proof Using "Type".

(** ** Python values *)

(** The values that travel through the scripts: what the search library
    hands back (nested dicts and lists with string, integer, boolean and
    [None] leaves) and what the scripts build from it.  A [dict] is kept as
    an association list in insertion order, keys being strings as in every
    dict the scripts read or build; a lookup takes the first binding of the
    key.  Floating point leaves are left out of the universe. *)
Inductive pyval : Type :=
  | PNone
  | PBool (b : bool)
  | PInt (n : Z)
  | PStr (s : string)
  | PList (l : list pyval)
  | PDict (d : list (string * pyval)).

(** The exceptions that can end a run.  [OtherError] stands for whatever the
    search library itself raises (network, parsing). *)
Inductive exn : Type :=
  | KeyError (k : pyval)
  | IndexError
  | TypeError
  | OtherError (msg : string)
  | AttributeError
  | ValueError
  | OSError.

(** Outcome of evaluating an expression: a value, or an exception. *)
Inductive res (A : Type) : Type :=
  | Val (a : A)
  | Raise (e : exn).
Arguments Val {A} a.
Arguments Raise {A} e.

Definition bind_res {A B} (r : res A) (k : A -> res B) : res B :=
  match r with
  | Val a => k a
  | Raise e => Raise e
  end.

Declare Scope py_scope.
Delimit Scope py_scope with py.
Notation "'let?' x ':=' e 'in' k" := (bind_res e (fun x => k))
  (at level 10, x name, e at level 100, k at level 200) : py_scope.
Open Scope py_scope.

(** *** Dictionaries as association lists *)

Fixpoint dict_get {V} (k : string) (d : list (string * V)) : option V :=
  match d with
  | [] => None
  | (k', v) :: d' => if String.eqb k k' then Some v else dict_get k d'
  end.

(** [d[k] = v]: replaces the value in place when the key is present, adds
    the binding at the end otherwise. *)
Fixpoint dict_set {V} (k : string) (v : V) (d : list (string * V))
  : list (string * V) :=
  match d with
  | [] => [(k, v)]
  | (k', v') :: d' =>
      if String.eqb k k' then (k', v) :: d' else (k', v') :: dict_set k v d'
  end.

Definition dict_keys {V} (d : list (string * V)) : list string := map fst d.

(** *** Subscription, iteration, hashing *)

(** [v[k]] with a string key [k]: only a dict accepts it. *)
Definition getitem (v : pyval) (k : string) : res pyval :=
  match v with
  | PDict d =>
      match dict_get k d with
      | Some x => Val x
      | None => Raise (KeyError (PStr k))
      end
  | _ => Raise TypeError
  end.

(** [v[0]].  A string is kept as its bytes, so its first character is its
    first byte here; the scripts only ever subscript such a character with
    a string, which fails for any character. *)
Definition getitem0 (v : pyval) : res pyval :=
  match v with
  | PList [] => Raise IndexError
  | PList (x :: _) => Val x
  | PStr EmptyString => Raise IndexError
  | PStr (String c _) => Val (PStr (String c EmptyString))
  | PDict _ => Raise (KeyError (PInt 0))
  | _ => Raise TypeError
  end.

Fixpoint chars (s : string) : list pyval :=
  match s with
  | EmptyString => []
  | String c s' => PStr (String c EmptyString) :: chars s'
  end.

(** The elements a [for] loop over [v] visits: the items of a list, the
    characters of a string, the keys of a dict. *)
Definition iter (v : pyval) : res (list pyval) :=
  match v with
  | PList l => Val l
  | PStr s => Val (chars s)
  | PDict d => Val (map (fun kv => PStr (fst kv)) d)
  | _ => Raise TypeError
  end.

Definition hashable (v : pyval) : bool :=
  match v with
  | PList _ | PDict _ => false
  | _ => true
  end.

(** Python's [==] on hashable values: [True == 1] and [False == 0]. *)
Definition py_eqb (a b : pyval) : bool :=
  match a, b with
  | PNone, PNone => true
  | PBool x, PBool y => Bool.eqb x y
  | PInt x, PInt y => Z.eqb x y
  | PBool x, PInt y => Z.eqb (Z.b2z x) y
  | PInt x, PBool y => Z.eqb x (Z.b2z y)
  | PStr x, PStr y => String.eqb x y
  | _, _ => false
  end.

(** A [set] is kept as the list of its members. *)
Definition set_mem (v : pyval) (s : list pyval) : bool := existsb (py_eqb v) s.

(** [v in s] for a set [s]: hashes [v] first. *)
Definition set_contains (v : pyval) (s : list pyval) : res bool :=
  if hashable v then Val (set_mem v s) else Raise TypeError.

Definition set_add (v : pyval) (s : list pyval) : list pyval := s ++ [v].

(** ** The outside world *)

Record datetime : Type := mkDatetime {
  year : nat; month : nat; day : nat;
  hour : nat; minute : nat; second : nat
}.

(** One call to the search library, with the answer it gave. *)
Inductive event : Type :=
  | EvChannels (query : pyval) (limit : Z) (answer : res pyval)
  | EvPlaylists (query : pyval) (limit : Z) (answer : res pyval).

(** The search library, [youtubesearchpython], is not part of the
    repository: [channels_search q n] is [ChannelsSearch(q, limit=n).result()]
    and [playlists_search q n] is [PlaylistsSearch(q, limit=n).result()], over
    a state [U] of the platform that a call may change. *)
Class Upstream (U : Type) : Type := {
  channels_search : pyval -> Z -> U -> res pyval * U;
  playlists_search : pyval -> Z -> U -> res pyval * U
}.

(** [clock] is what [datetime.now()] reports when the script asks, which
    it does once in a run; [files] holds, for each file name, the JSON
    document stored there (the text [json.dump] lays it out in is the
    library's business); [trace] lists the searches made so far, oldest
    first. *)
Record World (U : Type) : Type := mkWorld {
  upstream : U;
  trace : list event;
  clock : datetime;
  files : gmap string pyval;
  stdout : list string
}.
Arguments mkWorld {U}.
Arguments upstream {U}.
Arguments trace {U}.
Arguments clock {U}.
Arguments files {U}.
Arguments stdout {U}.

(** Computations: read and change the world, end in a value or an
    exception.  What was done before an exception stays done. *)
Definition M (U A : Type) : Type := World U -> res A * World U.

Definition ret {U A} (a : A) : M U A := fun w => (Val a, w).

Definition bind {U A B} (m : M U A) (k : A -> M U B) : M U B :=
  fun w =>
    match m w with
    | (Val a, w') => k a w'
    | (Raise e, w') => (Raise e, w')
    end.

Definition lift {U A} (r : res A) : M U A := fun w => (r, w).

Notation "x <- m ;; k" := (bind m (fun x => k))
  (at level 100, m at next level, right associativity) : py_scope.
Notation "m ;;; k" := (bind m (fun _ => k))
  (at level 100, right associativity) : py_scope.

(** [for x in xs: body], the loop's variables being threaded as [s]. *)
Fixpoint for_each {U A S} (xs : list A) (body : A -> S -> M U S) (s : S)
  : M U S :=
  match xs with
  | [] => ret s
  | x :: xs' => s' <- body x s ;; for_each xs' body s'
  end.

Section Primitives.
Context {U : Type} `{Upstream U}.

Definition ChannelsSearch (query : pyval) (limit : Z) : M U pyval :=
  fun w =>
    let '(r, u) := channels_search query limit (upstream w) in
    (r, mkWorld u (trace w ++ [EvChannels query limit r])
                (clock w) (files w) (stdout w)).

Definition PlaylistsSearch (query : pyval) (limit : Z) : M U pyval :=
  fun w =>
    let '(r, u) := playlists_search query limit (upstream w) in
    (r, mkWorld u (trace w ++ [EvPlaylists query limit r])
                (clock w) (files w) (stdout w)).
End Primitives.

Definition datetime_now {U} : M U datetime := fun w => (Val (clock w), w).

(** [open(name, "w")] followed by [json.dump(doc, f, ...)], as they go when
    the file system lets them through: the file [name] is created or
    replaced and holds the document [doc].  The step with its failures is
    [gravar]. *)
Definition write_json {U} (name : string) (doc : pyval) : M U unit :=
  fun w => (Val tt, mkWorld (upstream w) (trace w) (clock w)
                            (<[name := doc]> (files w)) (stdout w)).

Definition print {U} (line : string) : M U unit :=
  fun w => (Val tt, mkWorld (upstream w) (trace w) (clock w)
                            (files w) (stdout w ++ [line])).

(** *** strftime *)

Definition digits (n : nat) : string := NilZero.string_of_uint (Nat.to_uint n).

Fixpoint zeros (k : nat) : string :=
  match k with
  | O => EmptyString
  | S k' => String "0" (zeros k')
  end.

(** Decimal notation of [n], padded with zeros on the left to [width]. *)
Definition padded (width n : nat) : string :=
  let s := digits n in
  (zeros (width - String.length s) ++ s)%string.

(** [now.strftime("%Y-%m-%d_%H-%M-%S")], for the four-digit years a clock
    reports. *)
Definition strftime (t : datetime) : string :=
  (padded 4 (year t) ++ "-" ++ padded 2 (month t) ++ "-" ++ padded 2 (day t)
   ++ "_" ++ padded 2 (hour t) ++ "-" ++ padded 2 (minute t) ++ "-"
   ++ padded 2 (second t))%string.

(** ** The two scripts *)

(** [p['thumbnails'][0]['url']]. *)
Definition thumbnail_de (p : pyval) : res pyval :=
  let? thumbnails := getitem p "thumbnails" in
  let? primeiro := getitem0 thumbnails in
  getitem primeiro "url".

(** The dict display both scripts append.  Python evaluates the four values
    from left to right, so the first missing piece decides the exception. *)
Definition novo_registro (p nome_canal : pyval) : res pyval :=
  let? titulo := getitem p "title" in
  let? link := getitem p "link" in
  let? thumbnail := thumbnail_de p in
  Val (PDict [ ("titulo", titulo); ("link", link);
               ("thumbnail", thumbnail); ("canal", nome_canal) ]).

(** *** daily_updater.py *)

Module DailyUpdater.

Definition categorias_canais : list (string * list string) :=
  [ ("Inteligência Artificial", ["Canal AI"; "AI News"]);
    ("Marketing Digital", ["Marketing Total"; "Growth Hacker"]) ].

Section Script.
Context {U : Type} `{Upstream U}.

(** [for p in playlists: playlists_sugeridas.append({...})]. *)
Definition para_cada_playlist (nome_canal : pyval) (ps : list pyval)
  (playlists_sugeridas : list pyval) : M U (list pyval) :=
  for_each ps (fun p playlists_sugeridas =>
    registro <- lift (novo_registro p nome_canal) ;;
    ret (playlists_sugeridas ++ [registro])) playlists_sugeridas.

(** [for c in canais_encontrados: ...]. *)
Definition para_cada_canal_encontrado (cs : list pyval)
  (playlists_sugeridas : list pyval) : M U (list pyval) :=
  for_each cs (fun c playlists_sugeridas =>
    nome_canal <- lift (getitem c "title") ;;
    resposta <- PlaylistsSearch nome_canal 5 ;;
    playlists <- lift (getitem resposta "result") ;;
    ps <- lift (iter playlists) ;;
    para_cada_playlist nome_canal ps playlists_sugeridas) playlists_sugeridas.

(** [for canal in canais: ...]. *)
Definition para_cada_canal (canais : list string)
  (playlists_sugeridas : list pyval) : M U (list pyval) :=
  for_each canais (fun canal playlists_sugeridas =>
    resposta <- ChannelsSearch (PStr canal) 3 ;;
    canais_encontrados <- lift (getitem resposta "result") ;;
    cs <- lift (iter canais_encontrados) ;;
    para_cada_canal_encontrado cs playlists_sugeridas) playlists_sugeridas.

(** The body of the loop over the categories, up to its last statement:
    [playlists_sugeridas = []], then the loop over [canais]. *)
Definition playlists_da_categoria (canais : list string) : M U (list pyval) :=
  para_cada_canal canais [].

(** [for categoria, canais in mapping.items(): ...], filling
    [todas_playlists]. *)
Definition para_cada_categoria (mapping : list (string * list string))
  (todas_playlists : list (string * pyval)) : M U (list (string * pyval)) :=
  for_each mapping (fun item todas_playlists =>
    playlists_sugeridas <- playlists_da_categoria (snd item) ;;
    ret (dict_set (fst item) (PList playlists_sugeridas) todas_playlists))
    todas_playlists.

Definition nome_do_arquivo (now : string) : string :=
  ("playlists_" ++ now ++ ".json")%string.

Definition atualizar_playlists : M U unit :=
  todas_playlists <- para_cada_categoria categorias_canais [] ;;
  now <- datetime_now ;;
  write_json (nome_do_arquivo (strftime now)) (PDict todas_playlists) ;;;
  print "Playlists atualizadas com sucesso!".

End Script.
End DailyUpdater.

(** *** sugerir_playlists.py.py *)

Module SugerirPlaylists.

Definition categorias_canais : list (string * list string) :=
  [ ("Inteligência Artificial", ["Canal AI"; "AI News"]);
    ("Marketing Digital", ["Marketing Total"; "Growth Hacker"]) ].

Definition categoria_nao_encontrada : pyval :=
  PDict [("error", PStr "Categoria não encontrada")].

(** The loop variables: [playlists_sugeridas] and [seen_links]. *)
Definition estado : Type := (list pyval * list pyval)%type.

Section Script.
Context {U : Type} `{Upstream U}.

(** [for p in playlists: if p['link'] not in seen_links: ...]. *)
Definition para_cada_playlist (nome_canal : pyval) (ps : list pyval)
  (st : estado) : M U estado :=
  for_each ps (fun p st =>
    let playlists_sugeridas := fst st in
    let seen_links := snd st in
    link <- lift (getitem p "link") ;;
    visto <- lift (set_contains link seen_links) ;;
    if negb visto then
      registro <- lift (novo_registro p nome_canal) ;;
      link' <- lift (getitem p "link") ;;
      ret (playlists_sugeridas ++ [registro], set_add link' seen_links)
    else ret st) st.

(** [for c in canais: ...]. *)
Definition para_cada_canal_encontrado (cs : list pyval) (st : estado)
  : M U estado :=
  for_each cs (fun c st =>
    nome_canal <- lift (getitem c "title") ;;
    resposta <- PlaylistsSearch nome_canal 5 ;;
    playlists <- lift (getitem resposta "result") ;;
    ps <- lift (iter playlists) ;;
    para_cada_playlist nome_canal ps st) st.

(** [for canal in categorias_canais[categoria]: ...]. *)
Definition para_cada_canal (canais : list string) (st : estado)
  : M U estado :=
  for_each canais (fun canal st =>
    resposta <- ChannelsSearch (PStr canal) 3 ;;
    canais_encontrados <- lift (getitem resposta "result") ;;
    cs <- lift (iter canais_encontrados) ;;
    para_cada_canal_encontrado cs st) st.

Definition sugerir_playlists (categoria : string) : M U pyval :=
  match dict_get categoria categorias_canais with
  | None => ret categoria_nao_encontrada
  | Some canais =>
      st <- para_cada_canal canais ([], []) ;;
      ret (PList (fst st))
  end.

End Script.
End SugerirPlaylists.

(** ** The shared lookup, as the specification words it *)

(** The entries of an answer: [answer['result']], as a [for] loop visits
    them. *)
Definition resultados (answer : pyval) : res (list pyval) :=
  let? r := getitem answer "result" in iter r.

Section Lookup.
Context {U : Type} `{Upstream U}.

(** Search playlists per channel: one playlist search for each channel
    record, on its title; every playlist found is paired with that title. *)
Definition busca_playlists (cs : list pyval) (itens : list (pyval * pyval))
  : M U (list (pyval * pyval)) :=
  for_each cs (fun c itens =>
    nome_canal <- lift (getitem c "title") ;;
    resposta <- PlaylistsSearch nome_canal 5 ;;
    ps <- lift (resultados resposta) ;;
    ret (itens ++ map (fun p => (p, nome_canal)) ps)) itens.

(** Search channels, then playlists per channel, and flatten: the
    playlists visited for a list of seed channel names, in order, each with
    the title of the channel it was found under. *)
Definition busca_desde (canais : list string) (itens : list (pyval * pyval))
  : M U (list (pyval * pyval)) :=
  for_each canais (fun canal itens =>
    resposta <- ChannelsSearch (PStr canal) 3 ;;
    cs <- lift (resultados resposta) ;;
    busca_playlists cs itens) itens.

Definition busca (canais : list string) : M U (list (pyval * pyval)) :=
  busca_desde canais [].

End Lookup.

(** The record of a visited playlist. *)
Definition registro_de (item : pyval * pyval) : res pyval :=
  novo_registro (fst item) (snd item).

Definition link_de (r : pyval) : pyval :=
  match getitem r "link" with
  | Val v => v
  | Raise _ => PNone
  end.

(** Deduplication by link, as a relation between the set of links seen so
    far, the playlists visited and the records kept: a playlist whose link
    was seen is dropped, any other is kept and its link is seen from then
    on. *)
Inductive primeiros : list pyval -> list (pyval * pyval) -> list pyval -> Prop :=
  | primeiros_nil seen :
      primeiros seen [] []
  | primeiros_skip seen p nome itens l link :
      getitem p "link" = Val link ->
      hashable link = true ->
      set_mem link seen = true ->
      primeiros seen itens l ->
      primeiros seen ((p, nome) :: itens) l
  | primeiros_keep seen p nome itens l link r :
      getitem p "link" = Val link ->
      hashable link = true ->
      set_mem link seen = false ->
      novo_registro p nome = Val r ->
      primeiros (set_add link seen) itens l ->
      primeiros seen ((p, nome) :: itens) (r :: l).

(** Removing from a list of records all but the first occurrence of each
    link. *)
Fixpoint sem_repetidos (seen : list pyval) (rs : list pyval) : list pyval :=
  match rs with
  | [] => []
  | r :: rs' =>
      if set_mem (link_de r) seen then sem_repetidos seen rs'
      else r :: sem_repetidos (set_add (link_de r) seen) rs'
  end.

(** No two records of the list have links that Python finds equal. *)
Definition links_distintos (rs : list pyval) : Prop :=
  forall (i j : nat) (ri rj : pyval),
    i <> j -> rs !! i = Some ri -> rs !! j = Some rj ->
    py_eqb (link_de ri) (link_de rj) = false.

(** *** The calls made, read off the trace *)

(** Playlist searches for the channel records [cs], in their order. *)
Inductive bloco_playlists : list pyval -> list event -> Prop :=
  | bloco_nil : bloco_playlists [] []
  | bloco_cons c cs nome resposta ps tr :
      getitem c "title" = Val nome ->
      resultados resposta = Val ps ->
      bloco_playlists cs tr ->
      bloco_playlists (c :: cs) (EvPlaylists nome 5 (Val resposta) :: tr).

(** For each seed name, in order: its channel search, then the playlist
    searches for the channel records that search returned. *)
Inductive ordem_aninhada : list string -> list event -> Prop :=
  | ordem_nil : ordem_aninhada [] []
  | ordem_cons canal canais resposta cs tr1 tr2 :
      resultados resposta = Val cs ->
      bloco_playlists cs tr1 ->
      ordem_aninhada canais tr2 ->
      ordem_aninhada (canal :: canais)
        (EvChannels (PStr canal) 3 (Val resposta) :: tr1 ++ tr2).

Definition itens_do_evento (e : event) : list (pyval * pyval) :=
  match e with
  | EvPlaylists nome _ (Val resposta) =>
      match resultados resposta with
      | Val ps => map (fun p => (p, nome)) ps
      | Raise _ => []
      end
  | _ => []
  end.

(** The playlists the answers in a trace contain, each with the query of
    its search. *)
Definition visitados (tr : list event) : list (pyval * pyval) :=
  flat_map itens_do_evento tr.

Definition limite_pedido (e : event) : bool :=
  match e with
  | EvChannels _ n _ => Z.eqb n 3
  | EvPlaylists _ n _ => Z.eqb n 5
  end.

(** The answer of a call has no more entries than the call asked for. *)
Definition limite_respeitado (e : event) : bool :=
  match e with
  | EvChannels _ n (Val resposta) | EvPlaylists _ n (Val resposta) =>
      match resultados resposta with
      | Val xs => Z.leb (Z.of_nat (length xs)) n
      | Raise _ => true
      end
  | _ => true
  end.

(** What a search changes: the platform and the trace, nothing else. *)
Definition so_buscas {U} (w w' : World U) : Prop :=
  clock w' = clock w /\ files w' = files w /\ stdout w' = stdout w.

(** *** Answers of the expected shape *)

Definition tem_chave (v : pyval) (k : string) : bool :=
  match getitem v k with
  | Val _ => true
  | Raise _ => false
  end.

(** A playlist entry with a non-empty ['thumbnails'] list whose first
    element has a ['url'] key. *)
Definition thumbnail_ok (p : pyval) : bool :=
  match getitem p "thumbnails" with
  | Val (PList (t :: _)) => tem_chave t "url"
  | _ => false
  end.

Definition playlist_ok (p : pyval) : bool :=
  tem_chave p "title" && tem_chave p "link" && hashable (link_de p)
  && thumbnail_ok p.

Definition canal_ok (c : pyval) : bool := tem_chave c "title".

(** An answer with a ['result'] list whose entries all pass [ok]. *)
Definition resposta_ok (ok : pyval -> bool) (answer : res pyval) : bool :=
  match answer with
  | Val (PDict d) =>
      match dict_get "result" d with
      | Some (PList xs) => forallb ok xs
      | _ => false
      end
  | _ => false
  end.

Definition upstream_ok (U : Type) `{Upstream U} : Prop :=
  forall (q : pyval) (n : Z) (u : U),
    resposta_ok canal_ok (fst (channels_search q n u)) = true /\
    resposta_ok playlist_ok (fst (playlists_search q n u)) = true.

(** *** Relations the statements are written with *)

(** The records of a list of visited playlists, one for one. *)
Definition registros (itens : list (pyval * pyval)) (rs : list pyval) : Prop :=
  Forall2 (fun item r => registro_de item = Val r) itens rs.

Fixpoint distintos (rs : list pyval) : Prop :=
  match rs with
  | [] => True
  | r :: rs' =>
      Forall (fun r' => py_eqb (link_de r) (link_de r') = false) rs' /\
      distintos rs'
  end.

(** Every record kept is the record of a visited playlist that no earlier
    visited playlist shares its link with. *)
Definition primeira_ocorrencia (itens : list (pyval * pyval)) (r : pyval)
  : Prop :=
  exists (i : nat) (p nome : pyval),
    itens !! i = Some (p, nome) /\ novo_registro p nome = Val r /\
    forall (j : nat) (p' nome' : pyval),
      (j < i)%nat -> itens !! j = Some (p', nome') ->
      py_eqb (link_de p') (link_de r) = false.

(** Every playlist visited has its link among the links of the records. *)
Definition links_cobertos (itens : list (pyval * pyval)) (l : list pyval)
  : Prop :=
  Forall (fun item =>
    Exists (fun r => py_eqb (link_de (fst item)) (link_de r) = true) l) itens.

(** Between [w] and [w'] only searches took place, each asking for at most
    3 channels or 5 playlists. *)
Definition buscou {U} (w w' : World U) : Prop :=
  so_buscas w w' /\
  exists tr, trace w' = trace w ++ tr /\ forallb limite_pedido tr = true.

(** Every run of [m], ended by an exception or not, relates the worlds
    before and after by [P]. *)
Definition respeita {U A} (P : World U -> World U -> Prop) (m : M U A)
  : Prop :=
  forall w r w', m w = (r, w') -> P w w'.

(** [r] is the record of the playlist entry [p] found under the channel
    title [nome]. *)
Definition registro_campos (p nome r : pyval) : Prop :=
  exists titulo link primeiro resto url,
    getitem p "title" = Val titulo /\ getitem p "link" = Val link /\
    getitem p "thumbnails" = Val (PList (primeiro :: resto)) /\
    getitem primeiro "url" = Val url /\
    r = PDict [ ("titulo", titulo); ("link", link);
                ("thumbnail", url); ("canal", nome) ].

(** The playlist entry [p] was in the answer to a playlist search on
    [nome], the title of a channel record that the channel search on one of
    the seed names returned. *)
Definition encontrado (canais : list string) (tr : list event)
  (p nome : pyval) : Prop :=
  exists canal resposta_c cs c resposta_p ps,
    In canal canais /\
    In (EvChannels (PStr canal) 3 (Val resposta_c)) tr /\
    resultados resposta_c = Val cs /\ In c cs /\
    getitem c "title" = Val nome /\
    In (EvPlaylists nome 5 (Val resposta_p)) tr /\
    resultados resposta_p = Val ps /\ In p ps.

Definition origem (canais : list string) (tr : list event) (r : pyval)
  : Prop :=
  exists p nome, encontrado canais tr p nome /\ registro_campos p nome r.

Definition itens_ok (itens : list (pyval * pyval)) : bool :=
  forallb (fun item => playlist_ok (fst item)) itens.

(** The document the batch updater builds: for each category of the
    mapping, in order, the list collected from its seed names, the searches
    of a category starting where those of the one before ended. *)
Inductive por_categoria {U} `{Upstream U} :
  list (string * list string) -> World U ->
  list (string * pyval) -> World U -> Prop :=
  | por_categoria_nil w : por_categoria [] w [] w
  | por_categoria_cons categoria canais mapping w l w1 todas w2 :
      DailyUpdater.playlists_da_categoria canais w = (Val l, w1) ->
      por_categoria mapping w1 todas w2 ->
      por_categoria ((categoria, canais) :: mapping) w
                    ((categoria, PList l) :: todas) w2.

(** ** Platforms to run the scripts against *)

(** A platform that replays a prepared list of answers, whatever is asked. *)
Definition proxima (u : list (res pyval)) : res pyval * list (res pyval) :=
  match u with
  | [] => (Raise (OtherError "sem resposta"), [])
  | r :: u' => (r, u')
  end.

#[export] Instance roteiro : Upstream (list (res pyval)) := {|
  channels_search _ _ := proxima;
  playlists_search _ _ := proxima
|}.

Definition playlist_exemplo (titulo link : string) : pyval :=
  PDict [ ("title", PStr titulo); ("link", PStr link);
          ("thumbnails", PList [PDict [("url", PStr "https://img/1.jpg")]]) ].

(** A platform without state: every channel search finds the one channel
    "Canal X", every playlist search finds its two playlists. *)
#[export] Instance fixo : Upstream unit := {|
  channels_search _ _ u :=
    (Val (PDict [("result", PList [PDict [("title", PStr "Canal X")]])]), u);
  playlists_search _ _ u :=
    (Val (PDict [("result",
       PList [ playlist_exemplo "Curso" "https://yt/pl1";
               playlist_exemplo "Aulas" "https://yt/pl2" ])]), u)
|}.

Definition mundo {U} (u : U) : World U :=
  mkWorld u [] (mkDatetime 2024 5 7 9 3 41) ∅ [].

(** ** Example runs *)

Definition resposta_vazia : res pyval := Val (PDict [("result", PList [])]).

(** No channel is found for any of the four seed names. *)
Definition roteiro_vazio : list (res pyval) :=
  [resposta_vazia; resposta_vazia; resposta_vazia; resposta_vazia].

(** One channel, whose only playlist has an empty ['thumbnails'] list. *)
Definition roteiro_sem_thumbnail : list (res pyval) :=
  [ Val (PDict [("result", PList [PDict [("title", PStr "Canal X")]])]);
    Val (PDict [("result", PList [PDict [ ("title", PStr "Curso");
                                           ("link", PStr "https://yt/pl1");
                                           ("thumbnails", PList []) ]])]) ].

Definition lista_de (r : res pyval) : list pyval :=
  match r with
  | Val (PList l) => l
  | _ => []
  end.

Definition valor_de {A} (d : A) (r : res A) : A :=
  match r with
  | Val a => a
  | Raise _ => d
  end.

(** The batch updater's list for the seeds of "Marketing Digital", the
    endpoint's answer for that category, and a whole batch run, all on the
    platform [fixo]. *)
Definition lote_fixo : list pyval :=
  Eval vm_compute in
    valor_de [] (fst (DailyUpdater.playlists_da_categoria
                        ["Marketing Total"; "Growth Hacker"] (mundo tt))).

Definition sugestao_fixo : list pyval :=
  Eval vm_compute in
    lista_de (fst (SugerirPlaylists.sugerir_playlists "Marketing Digital"
                     (mundo tt))).

Definition mundo_buscado : World unit :=
  Eval vm_compute in
    snd (SugerirPlaylists.sugerir_playlists "Marketing Digital" (mundo tt)).

Definition mundo_atualizado : World unit :=
  Eval vm_compute in snd (DailyUpdater.atualizar_playlists (mundo tt)).

Definition mundo_vazio_atualizado : World (list (res pyval)) :=
  Eval vm_compute in
    snd (DailyUpdater.atualizar_playlists (mundo roteiro_vazio)).

(** ** The rest of the endpoint file, and measures on traces *)

(** [raiz], the handler of ["/"] in sugerir_playlists.py.py: a fixed
    message, no search. *)
Definition raiz {U} : M U pyval :=
  ret (PDict [("message", PStr "Backend funcionando!")]).

Definition resposta_do_evento (e : event) : res pyval :=
  match e with
  | EvChannels _ _ r | EvPlaylists _ _ r => r
  end.

Definition respondida (e : event) : bool :=
  match resposta_do_evento e with
  | Val _ => true
  | Raise _ => false
  end.

(** The exception a run ended with, if any. *)
Definition excecao {A} (r : res A) : option exn :=
  match r with
  | Val _ => None
  | Raise e => Some e
  end.

(** How the searches of a run went, against its outcome: either all of them
    were answered, or all but the last were, the last raised, and its
    exception is the run's. *)
Definition encerra (tr : list event) (o : option exn) : Prop :=
  forallb respondida tr = true \/
  exists pre ev e,
    tr = pre ++ [ev] /\ forallb respondida pre = true /\
    resposta_do_evento ev = Raise e /\ o = Some e.

Definition para_na_falha {U A} (m : M U A) : Prop :=
  forall w r w', m w = (r, w') ->
    exists tr, trace w' = trace w ++ tr /\ encerra tr (excecao r).

Definition busca_de_canais (e : event) : bool :=
  match e with
  | EvChannels _ _ _ => true
  | EvPlaylists _ _ _ => false
  end.

Definition busca_de_playlists (e : event) : bool := negb (busca_de_canais e).

(** The channel records the channel searches of a trace returned. *)
Definition canais_achados (tr : list event) : list pyval :=
  flat_map (fun e =>
    match e with
    | EvChannels _ _ (Val resposta) =>
        match resultados resposta with
        | Val cs => cs
        | Raise _ => []
        end
    | _ => []
    end) tr.

Definition registro_ok (item : pyval * pyval) : bool :=
  match registro_de item with
  | Val _ => true
  | Raise _ => false
  end.

(** What the endpoint needs of the playlists it visits: a hashable link on
    each, and a record from each one whose link was not seen before. *)
Fixpoint primeiros_ok (seen : list pyval) (itens : list (pyval * pyval))
  : bool :=
  match itens with
  | [] => true
  | item :: resto =>
      match getitem (fst item) "link" with
      | Val link =>
          hashable link &&
          (if set_mem link seen then primeiros_ok seen resto
           else registro_ok item && primeiros_ok (set_add link seen) resto)
      | Raise _ => false
      end
  end.

(** A platform on which no channel search finds anything. *)
Definition sem_canais (U : Type) `{Upstream U} : Prop :=
  forall (q : pyval) (n : Z) (u : U),
    exists resposta u',
      channels_search q n u = (Val resposta, u') /\
      resultados resposta = Val [].

(** A platform that counts the calls made and never finds anything. *)
#[export] Instance deserto : Upstream nat := {|
  channels_search _ _ n := (Val (PDict [("result", PList [])]), S n);
  playlists_search _ _ n := (Val (PDict [("result", PList [])]), S n)
|}.

Definition mundo_deserto_atualizado : World nat :=
  Eval vm_compute in snd (DailyUpdater.atualizar_playlists (mundo 0%nat)).

(** A second batch run, started where the first one on [fixo] ended. *)
Definition mundo_atualizado_de_novo : World unit :=
  Eval vm_compute in snd (DailyUpdater.atualizar_playlists mundo_atualizado).

(** A playlist answer whose second entry repeats the link of the first and
    has nothing else. *)
Definition roteiro_repetido_incompleto : list (res pyval) :=
  [ Val (PDict [("result", PList [PDict [("title", PStr "Canal X")]])]);
    Val (PDict [("result",
      PList [ playlist_exemplo "Curso" "https://yt/pl1";
              PDict [("link", PStr "https://yt/pl1")] ])]);
    resposta_vazia ].

Definition mundo_repetido_buscado : World (list (res pyval)) :=
  Eval vm_compute in
    snd (SugerirPlaylists.sugerir_playlists "Marketing Digital"
           (mundo roteiro_repetido_incompleto)).

(** One channel is found, then the playlist search fails. *)
Definition roteiro_com_falha : list (res pyval) :=
  [ Val (PDict [("result", PList [PDict [("title", PStr "Canal X")]])]);
    Raise (OtherError "timeout") ].

Definition mundo_apos_falha : World (list (res pyval)) :=
  Eval vm_compute in
    snd (SugerirPlaylists.sugerir_playlists "Marketing Digital"
           (mundo roteiro_com_falha)).

(** ** The batch updater at the level of objects and files *)

(** The document of a completed batch run, read off the trace: for each
    category of the mapping, in order, the searches for its seed names and,
    under its key, the records of the playlists those searches visited. *)
Inductive agrupado :
  list (string * list string) -> list event -> list (string * pyval) -> Prop :=
  | agrupado_nil : agrupado [] [] []
  | agrupado_cons categoria canais mapping tr1 tr2 l todas :
      ordem_aninhada canais tr1 ->
      registros (visitados tr1) l ->
      agrupado mapping tr2 todas ->
      agrupado ((categoria, canais) :: mapping) (tr1 ++ tr2)
               ((categoria, PList l) :: todas).

(** *** The timestamp, as the format words it *)






(** *** Objects *)

(** The lists and dicts the script creates and changes in place, and those
    of the module's mapping, are objects in a store, known by their
    location; a dict object maps its keys to the locations of list
    objects.  The records and the library's answers, which no statement
    changes once built, stay values. *)
Abbreviation loc := nat.

Inductive objeto : Type :=
  | OLista (itens : list pyval)
  | ODict (entradas : list (string * loc)).

(** What [open] and [json.dump] meet in the file system: [abre name] is the
    exception [open(name, "w")] raises, if any; [despeja name doc] the
    exception that interrupts the writing of [doc], if any (a full disk;
    an integer too long to print). *)
Record Disco : Type := mkDisco {
  abre : string -> option exn;
  despeja : string -> pyval -> option exn
}.

(** The world, the store, and the names of the files left with an
    unfinished text ([files] holds the finished documents only). *)
Record Estado (U : Type) : Type := mkEstado {
  exterior : World U;
  objetos : list objeto;
  incompletos : gset string
}.
Arguments mkEstado {U}.
Arguments exterior {U}.
Arguments objetos {U}.
Arguments incompletos {U}.

Definition MO (U A : Type) : Type := Estado U -> res A * Estado U.

Definition reto {U A} (a : A) : MO U A := fun s => (Val a, s).

Definition bindo {U A B} (m : MO U A) (k : A -> MO U B) : MO U B :=
  fun s =>
    match m s with
    | (Val a, s') => k a s'
    | (Raise e, s') => (Raise e, s')
    end.

Definition levanta {U A} (e : exn) : MO U A := fun s => (Raise e, s).

Definition puro {U A} (r : res A) : MO U A := fun s => (r, s).

(** A computation on the world, the store left alone. *)
Definition no_mundo {U A} (m : M U A) : MO U A :=
  fun s =>
    let '(r, w) := m (exterior s) in
    (r, mkEstado w (objetos s) (incompletos s)).

Declare Scope obj_scope.
Delimit Scope obj_scope with obj.
Notation "x <- m ;; k" := (bindo m (fun x => k))
  (at level 100, m at next level, right associativity) : obj_scope.
Notation "m ;;; k" := (bindo m (fun _ => k))
  (at level 100, right associativity) : obj_scope.

(** [for x in xs: body]. *)
Fixpoint para_cada {U A} (xs : list A) (body : A -> MO U unit) : MO U unit :=
  match xs with
  | [] => reto tt
  | x :: xs' => bindo (body x) (fun _ => para_cada xs' body)
  end.

(** A display [[]] or [{}]: a new object, at the first free location. *)
Definition alocar {U} (o : objeto) : MO U loc :=
  fun s => (Val (length (objetos s)),
            mkEstado (exterior s) (objetos s ++ [o]) (incompletos s)).

(** Locations are handed out by [alocar] and objects are never removed, so
    a location without an object does not occur in a run. *)
Definition ler {U} (l : loc) : MO U objeto :=
  fun s =>
    match objetos s !! l with
    | Some o => (Val o, s)
    | None => (Raise (OtherError "no such object"), s)
    end.

Definition escrever {U} (l : loc) (o : objeto) : MO U unit :=
  fun s => (Val tt, mkEstado (exterior s) (<[l := o]> (objetos s))
                             (incompletos s)).

(** [l.append(x)]. *)
Definition append {U} (l : loc) (x : pyval) : MO U unit :=
  bindo (ler l) (fun o =>
    match o with
    | OLista xs => escrever l (OLista (xs ++ [x]))
    | ODict _ => levanta AttributeError
    end).

(** [d[k] = v]. *)
Definition setitem {U} (d : loc) (k : string) (v : loc) : MO U unit :=
  bindo (ler d) (fun o =>
    match o with
    | ODict entradas => escrever d (ODict (dict_set k v entradas))
    | OLista _ => levanta TypeError
    end).

(** [d.items()]. *)
Definition items {U} (d : loc) : MO U (list (string * loc)) :=
  bindo (ler d) (fun o =>
    match o with
    | ODict entradas => reto entradas
    | OLista _ => levanta AttributeError
    end).

(** What [for x in l] visits. *)
Definition iterar {U} (l : loc) : MO U (list pyval) :=
  bindo (ler l) (fun o =>
    match o with
    | OLista xs => reto xs
    | ODict entradas => reto (map (fun kv => PStr (fst kv)) entradas)
    end).

Fixpoint congelar_entradas (f : loc -> option pyval)
  (entradas : list (string * loc)) : option (list (string * pyval)) :=
  match entradas with
  | [] => Some []
  | (k, l) :: resto =>
      match f l, congelar_entradas f resto with
      | Some v, Some r => Some ((k, v) :: r)
      | _, _ => None
      end
  end.

(** The document [json.dump] makes of the object at [l], going at most [n]
    objects deep; there is none when the objects refer to one another in a
    circle. *)
Fixpoint congelar (n : nat) (σ : list objeto) (l : loc) : option pyval :=
  match n with
  | O => None
  | S n' =>
      match σ !! l with
      | Some (OLista xs) => Some (PList xs)
      | Some (ODict entradas) =>
          match congelar_entradas (congelar n' σ) entradas with
          | Some r => Some (PDict r)
          | None => None
          end
      | None => None
      end
  end.

Definition sem_arquivo {U} (name : string) (w : World U) : World U :=
  mkWorld (upstream w) (trace w) (clock w) (delete name (files w)) (stdout w).

(** [with open(name, "w", ...) as f: json.dump(obj, f, ...)].  When [open]
    raises, nothing has happened.  Once it has returned the file exists and
    is empty; an exception of [json.dump] (a circular reference, or what
    the file system answers) leaves it with an unfinished text. *)
Definition gravar {U} (disco : Disco) (name : string) (obj : loc)
  : MO U unit :=
  fun s =>
    match abre disco name with
    | Some e => (Raise e, s)
    | None =>
        let aberto := mkEstado (sem_arquivo name (exterior s)) (objetos s)
                               ({[name]} ∪ incompletos s) in
        match congelar (S (length (objetos s))) (objetos s) obj with
        | None => (Raise ValueError, aberto)
        | Some doc =>
            match despeja disco name doc with
            | Some e => (Raise e, aberto)
            | None =>
                (Val tt, mkEstado (snd (write_json name doc (exterior s)))
                                  (objetos s) (incompletos s ∖ {[name]}))
            end
        end
    end.

(** daily_updater.py, its lists and dicts as objects. *)
Module DailyUpdaterObjetos.

(** The store after the module's first statement: the two seed lists, then
    the dict, which the global name [categorias_canais] is bound to. *)
Definition modulo : list objeto :=
  [ OLista [PStr "Canal AI"; PStr "AI News"];
    OLista [PStr "Marketing Total"; PStr "Growth Hacker"];
    ODict [("Inteligência Artificial", 0%nat); ("Marketing Digital", 1%nat)] ].

Definition categorias_canais : loc := 2%nat.

Section Script.
Context {U : Type} `{Upstream U}.
Open Scope obj_scope.

(** [for p in playlists: playlists_sugeridas.append({...})]. *)
Definition para_cada_playlist (playlists_sugeridas : loc)
  (nome_canal : pyval) (ps : list pyval) : MO U unit :=
  para_cada ps (fun p =>
    registro <- puro (novo_registro p nome_canal) ;;
    append playlists_sugeridas registro).

(** [for c in canais_encontrados: ...]. *)
Definition para_cada_canal_encontrado (playlists_sugeridas : loc)
  (cs : list pyval) : MO U unit :=
  para_cada cs (fun c =>
    nome_canal <- puro (getitem c "title") ;;
    resposta <- no_mundo (PlaylistsSearch nome_canal 5) ;;
    playlists <- puro (getitem resposta "result") ;;
    ps <- puro (iter playlists) ;;
    para_cada_playlist playlists_sugeridas nome_canal ps).

(** [for canal in canais: ...]. *)
Definition para_cada_canal (playlists_sugeridas : loc)
  (canais : list pyval) : MO U unit :=
  para_cada canais (fun canal =>
    resposta <- no_mundo (ChannelsSearch canal 3) ;;
    canais_encontrados <- puro (getitem resposta "result") ;;
    cs <- puro (iter canais_encontrados) ;;
    para_cada_canal_encontrado playlists_sugeridas cs).

(** [for categoria, canais in categorias_canais.items(): ...]. *)
Definition para_cada_categoria (todas_playlists : loc)
  (itens : list (string * loc)) : MO U unit :=
  para_cada itens (fun item =>
    playlists_sugeridas <- alocar (OLista []) ;;
    canais <- iterar (snd item) ;;
    para_cada_canal playlists_sugeridas canais ;;;
    setitem todas_playlists (fst item) playlists_sugeridas).

(** The statements up to the comment: the collection. *)
Definition coletar : MO U loc :=
  todas_playlists <- alocar (ODict []) ;;
  itens <- items categorias_canais ;;
  para_cada_categoria todas_playlists itens ;;;
  reto todas_playlists.

Definition atualizar_playlists (disco : Disco) : MO U unit :=
  todas_playlists <- coletar ;;
  now <- no_mundo datetime_now ;;
  gravar disco (DailyUpdater.nome_do_arquivo (strftime now))
         todas_playlists ;;;
  no_mundo (print "Playlists atualizadas com sucesso!").

Close Scope obj_scope.
End Script.
End DailyUpdaterObjetos.

(** The store holds, at [l], the mapping [mapping]: a dict of its keys,
    each bound to a list of its seed names. *)
Definition representa (σ : list objeto) (l : loc)
  (mapping : list (string * list string)) : Prop :=
  exists entradas,
    σ !! l = Some (ODict entradas) /\
    Forall2 (fun e m =>
      fst e = fst m /\ σ !! snd e = Some (OLista (map PStr (snd m))))
      entradas mapping.

Definition disco_bom : Disco :=
  {| abre _ := None; despeja _ _ := None |}.

(** [open] is refused. *)
Definition disco_fechado : Disco :=
  {| abre _ := Some OSError; despeja _ _ := None |}.

(** The file opens, the writing is interrupted. *)
Definition disco_cheio : Disco :=
  {| abre _ := None; despeja _ _ := Some OSError |}.

(** The module just loaded, no file around but an older document. *)
Definition estado_inicial {U} (u : U) : Estado U :=
  mkEstado (mkWorld u [] (mkDatetime 2024 5 7 9 3 41)
                    {["playlists_2023-01-01_00-00-00.json" := PDict []]} [])
           DailyUpdaterObjetos.modulo ∅.

Definition estado_atualizado : Estado unit :=
  Eval vm_compute in
    snd (DailyUpdaterObjetos.atualizar_playlists disco_bom (estado_inicial tt)).

Definition estado_interrompido : Estado unit :=
  Eval vm_compute in
    snd (DailyUpdaterObjetos.atualizar_playlists disco_cheio
           (estado_inicial tt)).

(** The outcome of a loop that returns nothing. *)
Definition sem_valor {A} (r : res A) : res unit :=
  match r with
  | Val _ => Val tt
  | Raise e => Raise e
  end.

(** The state [s] with the world [w] and the list [xs] at [l]. *)
Definition com_lista {U} (s : Estado U) (l : loc) (xs : list pyval)
  (w : World U) : Estado U :=
  mkEstado w (<[l := OLista xs]> (objetos s)) (incompletos s).

(** The dict [entradas], whose list objects are the objects [k] that follow
    it in a store that begins with [n] others, holds the lists of
    [todas]. *)
Definition guarda (n : nat) (k : list objeto)
  (entradas : list (string * loc)) (todas : list (string * pyval)) : Prop :=
  Forall2 (fun e t =>
    fst e = fst t /\
    exists i l, snd e = (n + 1 + i)%nat /\ k !! i = Some (OLista l) /\
                snd t = PList l) entradas todas.

(** ** Running a computation *)

Lemma bind_Val {U A B} (m : M U A) (k : A -> M U B) w b w' :
  bind m k w = (Val b, w') ->
  exists a w1, m w = (Val a, w1) /\ k a w1 = (Val b, w').
Proof.
  unfold bind. destruct (m w) as [[a|e] w1]; intros E.
  - exists a, w1. split; [reflexivity | exact E].
  - discriminate E.
Qed.

Lemma bind_run {U A B} (m : M U A) (k : A -> M U B) w a w1 :
  m w = (Val a, w1) -> bind m k w = k a w1.
Proof. unfold bind. intros ->. reflexivity. Qed.

Lemma bind_raise {U A B} (m : M U A) (k : A -> M U B) w e w1 :
  m w = (Raise e, w1) -> bind m k w = (Raise e, w1).
Proof. unfold bind. intros ->. reflexivity. Qed.

Lemma lift_Val {U A} (r : res A) (w : World U) a w' :
  lift r w = (Val a, w') -> r = Val a /\ w' = w.
Proof. unfold lift. intros E. inversion E. split; reflexivity. Qed.

Lemma ret_Val {U A} (a b : A) (w w' : World U) :
  ret a w = (Val b, w') -> b = a /\ w' = w.
Proof. unfold ret. intros E. inversion E. split; reflexivity. Qed.

Lemma bind_res_Val {A B} (r : res A) (k : A -> res B) b :
  bind_res r k = Val b -> exists a, r = Val a /\ k a = Val b.
Proof.
  destruct r as [a|e]; simpl; intros E; [eauto | discriminate].
Qed.

(** Takes the first statement off a successful run. *)
Tactic Notation "passo" hyp(H) "as" ident(a) ident(w) ident(H1) :=
  apply bind_Val in H; destruct H as (a & w & H1 & H).
Tactic Notation "puro" hyp(H) "as" ident(a) ident(H1) :=
  let w := fresh "w" in
  apply bind_Val in H; destruct H as (a & w & H1 & H);
  apply lift_Val in H1; destruct H1 as [H1 ?]; subst w.

Lemma for_each_cons {U A S} (x : A) (xs : list A) (body : A -> S -> M U S) s :
  for_each (x :: xs) body s = (s' <- body x s ;; for_each xs body s').
Proof. reflexivity. Qed.

Lemma so_buscas_refl {U} (w : World U) : so_buscas w w.
Proof. repeat split. Qed.

Lemma so_buscas_trans {U} (w1 w2 w3 : World U) :
  so_buscas w1 w2 -> so_buscas w2 w3 -> so_buscas w1 w3.
Proof.
  unfold so_buscas. intros (a1 & b1 & c1) (a2 & b2 & c2).
  repeat split; congruence.
Qed.

Section Searches.
Context {U : Type} `{Upstream U}.

Lemma ChannelsSearch_Val q n (w : World U) r w' :
  ChannelsSearch q n w = (Val r, w') ->
  trace w' = trace w ++ [EvChannels q n (Val r)] /\ so_buscas w w' /\
  channels_search q n (upstream w) = (Val r, upstream w').
Proof.
  unfold ChannelsSearch.
  destruct (channels_search q n (upstream w)) as [r0 u] eqn:E.
  intros E'. inversion E'; subst. repeat split.
Qed.

Lemma PlaylistsSearch_Val q n (w : World U) r w' :
  PlaylistsSearch q n w = (Val r, w') ->
  trace w' = trace w ++ [EvPlaylists q n (Val r)] /\ so_buscas w w' /\
  playlists_search q n (upstream w) = (Val r, upstream w').
Proof.
  unfold PlaylistsSearch.
  destruct (playlists_search q n (upstream w)) as [r0 u] eqn:E.
  intros E'. inversion E'; subst. repeat split.
Qed.

Lemma visitados_app tr1 tr2 :
  visitados (tr1 ++ tr2) = visitados tr1 ++ visitados tr2.
Proof. unfold visitados. apply flat_map_app. Qed.

(** The playlist searches of the shared lookup, as the trace shows them. *)
Lemma busca_playlists_trace cs : forall itens (w : World U) itens' w',
  busca_playlists cs itens w = (Val itens', w') ->
  exists tr, trace w' = trace w ++ tr /\ bloco_playlists cs tr /\
             itens' = itens ++ visitados tr /\ so_buscas w w'.
Proof.
  induction cs as [|c cs IH]; intros itens w itens' w' E.
  - apply ret_Val in E as [-> ->]. exists []. rewrite !app_nil_r.
    repeat split. constructor.
  - unfold busca_playlists in E. rewrite for_each_cons in E.
    fold (busca_playlists (U:=U) cs) in E.
    passo E as itens1 w2 E1.
    puro E1 as nome Hn. passo E1 as resposta w1 Hs. puro E1 as ps Hps.
    apply ret_Val in E1 as [-> ->].
    apply PlaylistsSearch_Val in Hs as (Ht & Hf & _).
    apply IH in E as (tr & Ht' & Hb & -> & Hf').
    exists (EvPlaylists nome 5 (Val resposta) :: tr).
    split; [|split; [|split]].
    + rewrite Ht', Ht, <- app_assoc. reflexivity.
    + econstructor; eassumption.
    + simpl. rewrite Hps, <- app_assoc. reflexivity.
    + eapply so_buscas_trans; eassumption.
Qed.

Lemma busca_desde_trace canais : forall itens (w : World U) itens' w',
  busca_desde canais itens w = (Val itens', w') ->
  exists tr, trace w' = trace w ++ tr /\ ordem_aninhada canais tr /\
             itens' = itens ++ visitados tr /\ so_buscas w w'.
Proof.
  induction canais as [|canal canais IH]; intros itens w itens' w' E.
  - apply ret_Val in E as [-> ->]. exists []. rewrite !app_nil_r.
    repeat split. constructor.
  - unfold busca_desde in E. rewrite for_each_cons in E.
    fold (busca_desde (U:=U) canais) in E.
    passo E as itens1 w3 E1. passo E1 as resposta w1 Hs. puro E1 as cs Hcs.
    apply ChannelsSearch_Val in Hs as (Ht & Hf & _).
    apply busca_playlists_trace in E1 as (tr1 & Ht1 & Hb & -> & Hf1).
    apply IH in E as (tr2 & Ht2 & Ho & -> & Hf2).
    exists (EvChannels (PStr canal) 3 (Val resposta) :: tr1 ++ tr2).
    split; [|split; [|split]].
    + rewrite Ht2, Ht1, Ht, <- !app_assoc. reflexivity.
    + econstructor; eassumption.
    + simpl. rewrite visitados_app, <- !app_assoc. reflexivity.
    + eapply so_buscas_trans; [|eassumption].
      eapply so_buscas_trans; eassumption.
Qed.

Lemma busca_trace canais (w : World U) itens w' :
  busca canais w = (Val itens, w') ->
  exists tr, trace w' = trace w ++ tr /\ ordem_aninhada canais tr /\
             itens = visitados tr /\ so_buscas w w'.
Proof. intros E. apply busca_desde_trace in E. exact E. Qed.

End Searches.

(** ** The batch updater against the shared lookup *)

Lemma resultados_Val resposta r ps :
  getitem resposta "result" = Val r -> iter r = Val ps ->
  resultados resposta = Val ps.
Proof. unfold resultados. intros -> E. simpl. exact E. Qed.

Lemma resultados_inv resposta ps :
  resultados resposta = Val ps ->
  exists r, getitem resposta "result" = Val r /\ iter r = Val ps.
Proof. unfold resultados. intros E. apply bind_res_Val in E. exact E. Qed.

Section Batch.
Context {U : Type} `{Upstream U}.
Import DailyUpdater.

Lemma para_cada_playlist_Val nome ps : forall acc (w : World U) acc' w',
  para_cada_playlist nome ps acc w = (Val acc', w') ->
  w' = w /\ exists rs, registros (map (fun p => (p, nome)) ps) rs /\
                        acc' = acc ++ rs.
Proof.
  induction ps as [|p ps IH]; intros acc w acc' w' E.
  - apply ret_Val in E as [-> ->]. split; [reflexivity|].
    exists []. rewrite app_nil_r. split; [constructor | reflexivity].
  - unfold para_cada_playlist in E. rewrite for_each_cons in E.
    fold (para_cada_playlist (U:=U) nome ps) in E.
    passo E as acc1 w1 E1. puro E1 as r Hr. apply ret_Val in E1 as [-> ->].
    apply IH in E as (-> & rs & Hrs & ->). split; [reflexivity|].
    exists (r :: rs). split.
    + constructor; assumption.
    + rewrite <- app_assoc. reflexivity.
Qed.

Lemma para_cada_playlist_run nome ps : forall rs acc (w : World U),
  registros (map (fun p => (p, nome)) ps) rs ->
  para_cada_playlist nome ps acc w = (Val (acc ++ rs), w).
Proof.
  induction ps as [|p ps IH]; intros rs acc w Hrs; inversion Hrs; subst.
  - rewrite app_nil_r. reflexivity.
  - unfold para_cada_playlist. rewrite for_each_cons.
    fold (para_cada_playlist (U:=U) nome ps).
    match goal with Hr : registro_de _ = Val _ |- _ =>
      unfold registro_de in Hr; simpl in Hr end.
    erewrite bind_run;
      [| erewrite bind_run; [reflexivity | unfold lift; f_equal; eassumption]].
    unfold ret. erewrite IH by eassumption.
    rewrite <- app_assoc. reflexivity.
Qed.

(** A successful pass over the channel records is a pass of the shared
    lookup over them, with every playlist it visits turned into a record. *)
Lemma para_cada_canal_encontrado_Val cs :
  forall acc (w : World U) acc' w' itens0,
  para_cada_canal_encontrado cs acc w = (Val acc', w') ->
  exists itens rs,
    busca_playlists cs itens0 w = (Val (itens0 ++ itens), w') /\
    registros itens rs /\ acc' = acc ++ rs.
Proof.
  induction cs as [|c cs IH]; intros acc w acc' w' itens0 E.
  - apply ret_Val in E as [-> ->]. exists [], []. rewrite !app_nil_r.
    repeat split. constructor.
  - unfold para_cada_canal_encontrado in E. rewrite for_each_cons in E.
    fold (para_cada_canal_encontrado (U:=U) cs) in E.
    passo E as acc1 w2 E1.
    puro E1 as nome Hn. passo E1 as resposta w1 Hs.
    puro E1 as r Hr. puro E1 as ps Hps.
    apply para_cada_playlist_Val in E1 as (-> & rs1 & Hrs1 & ->).
    apply (IH _ _ _ _ (itens0 ++ map (fun p => (p, nome)) ps)) in E
      as (itens2 & rs2 & Hb & Hrs2 & ->).
    exists (map (fun p => (p, nome)) ps ++ itens2), (rs1 ++ rs2).
    split; [|split].
    + unfold busca_playlists. rewrite for_each_cons.
      fold (busca_playlists (U:=U) cs).
      erewrite bind_run; [rewrite app_assoc; exact Hb|].
      erewrite bind_run; [|unfold lift; f_equal; exact Hn].
      erewrite bind_run; [|exact Hs].
      erewrite bind_run;
        [|unfold lift; f_equal; eapply resultados_Val; eassumption].
      reflexivity.
    + apply Forall2_app; assumption.
    + rewrite app_assoc. reflexivity.
Qed.

Lemma para_cada_canal_encontrado_run cs :
  forall itens0 (w : World U) itens' w',
  busca_playlists cs itens0 w = (Val itens', w') ->
  exists itens, itens' = itens0 ++ itens /\
    forall rs acc, registros itens rs ->
      para_cada_canal_encontrado cs acc w = (Val (acc ++ rs), w').
Proof.
  induction cs as [|c cs IH]; intros itens0 w itens' w' E.
  - apply ret_Val in E as [-> ->]. exists []. rewrite app_nil_r.
    split; [reflexivity|]. intros rs acc Hrs. inversion Hrs; subst.
    rewrite app_nil_r. reflexivity.
  - unfold busca_playlists in E. rewrite for_each_cons in E.
    fold (busca_playlists (U:=U) cs) in E.
    passo E as itens1 w2 E1.
    puro E1 as nome Hn. passo E1 as resposta w1 Hs. puro E1 as ps Hps.
    apply ret_Val in E1 as [-> ->].
    apply IH in E as (itens2 & -> & Hrun).
    exists (map (fun p => (p, nome)) ps ++ itens2).
    split; [rewrite app_assoc; reflexivity|].
    intros rs acc Hrs.
    apply Forall2_app_inv_l in Hrs as (rs1 & rs2 & Hrs1 & Hrs2 & ->).
    apply resultados_inv in Hps as (r & Hr & Hit).
    unfold para_cada_canal_encontrado. rewrite for_each_cons.
    fold (para_cada_canal_encontrado (U:=U) cs).
    erewrite bind_run; [rewrite app_assoc; apply Hrun; exact Hrs2|].
    erewrite bind_run; [|unfold lift; f_equal; exact Hn].
    erewrite bind_run; [|exact Hs].
    erewrite bind_run; [|unfold lift; f_equal; exact Hr].
    erewrite bind_run; [|unfold lift; f_equal; exact Hit].
    apply para_cada_playlist_run. exact Hrs1.
Qed.

Lemma para_cada_canal_Val canais :
  forall acc (w : World U) acc' w' itens0,
  para_cada_canal canais acc w = (Val acc', w') ->
  exists itens rs,
    busca_desde canais itens0 w = (Val (itens0 ++ itens), w') /\
    registros itens rs /\ acc' = acc ++ rs.
Proof.
  induction canais as [|canal canais IH]; intros acc w acc' w' itens0 E.
  - apply ret_Val in E as [-> ->]. exists [], []. rewrite !app_nil_r.
    repeat split. constructor.
  - unfold para_cada_canal in E. rewrite for_each_cons in E.
    fold (para_cada_canal (U:=U) canais) in E.
    passo E as acc1 w2 E1.
    passo E1 as resposta w1 Hs. puro E1 as r Hr. puro E1 as cs Hcs.
    apply (para_cada_canal_encontrado_Val _ _ _ _ _ itens0) in E1
      as (itens1 & rs1 & Hb & Hrs1 & ->).
    apply (IH _ _ _ _ (itens0 ++ itens1)) in E
      as (itens2 & rs2 & Hb2 & Hrs2 & ->).
    exists (itens1 ++ itens2), (rs1 ++ rs2). split; [|split].
    + unfold busca_desde. rewrite for_each_cons. fold (busca_desde (U:=U) canais).
      erewrite bind_run; [rewrite app_assoc; exact Hb2|].
      erewrite bind_run; [|exact Hs].
      erewrite bind_run;
        [|unfold lift; f_equal; eapply resultados_Val; eassumption].
      exact Hb.
    + apply Forall2_app; assumption.
    + rewrite app_assoc. reflexivity.
Qed.

Lemma para_cada_canal_run canais :
  forall itens0 (w : World U) itens' w',
  busca_desde canais itens0 w = (Val itens', w') ->
  exists itens, itens' = itens0 ++ itens /\
    forall rs acc, registros itens rs ->
      para_cada_canal canais acc w = (Val (acc ++ rs), w').
Proof.
  induction canais as [|canal canais IH]; intros itens0 w itens' w' E.
  - apply ret_Val in E as [-> ->]. exists []. rewrite app_nil_r.
    split; [reflexivity|]. intros rs acc Hrs. inversion Hrs; subst.
    rewrite app_nil_r. reflexivity.
  - unfold busca_desde in E. rewrite for_each_cons in E.
    fold (busca_desde (U:=U) canais) in E.
    passo E as itens1 w2 E1.
    passo E1 as resposta w1 Hs. puro E1 as cs Hcs.
    apply para_cada_canal_encontrado_run in E1 as (itens1' & -> & Hrun1).
    apply IH in E as (itens2 & -> & Hrun2).
    exists (itens1' ++ itens2).
    split; [rewrite app_assoc; reflexivity|].
    intros rs acc Hrs.
    apply Forall2_app_inv_l in Hrs as (rs1 & rs2 & Hrs1 & Hrs2 & ->).
    apply resultados_inv in Hcs as (r & Hr & Hit).
    unfold para_cada_canal. rewrite for_each_cons.
    fold (para_cada_canal (U:=U) canais).
    erewrite bind_run; [rewrite app_assoc; apply Hrun2; exact Hrs2|].
    erewrite bind_run; [|exact Hs].
    erewrite bind_run; [|unfold lift; f_equal; exact Hr].
    erewrite bind_run; [|unfold lift; f_equal; exact Hit].
    apply Hrun1. exact Hrs1.
Qed.

(** The list the batch updater builds for a category: the records of the
    playlists the shared lookup visits, in that order. *)
Lemma playlists_da_categoria_busca canais (w : World U) l w' :
  playlists_da_categoria canais w = (Val l, w') <->
  exists itens, busca canais w = (Val itens, w') /\ registros itens l.
Proof.
  split.
  - intros E. apply (para_cada_canal_Val _ _ _ _ _ []) in E
      as (itens & rs & Hb & Hrs & ->).
    exists itens. split; assumption.
  - intros (itens & Hb & Hrs).
    apply para_cada_canal_run in Hb as (itens1 & -> & Hrun).
    apply (Hrun l []). exact Hrs.
Qed.

End Batch.

(** ** The query endpoint against the shared lookup *)

Lemma thumbnail_de_inv p url :
  thumbnail_de p = Val url ->
  exists primeiro resto,
    getitem p "thumbnails" = Val (PList (primeiro :: resto)) /\
    getitem primeiro "url" = Val url.
Proof.
  unfold thumbnail_de. intros E.
  apply bind_res_Val in E as (thumbnails & Hth & E).
  apply bind_res_Val in E as (primeiro & Hp & E).
  destruct thumbnails as [| | |s|l|d]; try discriminate Hp.
  - destruct s; inversion Hp; subst. discriminate E.
  - destruct l as [|x l]; inversion Hp; subst. eauto.
Qed.

Lemma novo_registro_inv p nome r :
  novo_registro p nome = Val r ->
  exists titulo link url,
    getitem p "title" = Val titulo /\ getitem p "link" = Val link /\
    thumbnail_de p = Val url /\
    r = PDict [ ("titulo", titulo); ("link", link);
                ("thumbnail", url); ("canal", nome) ].
Proof.
  unfold novo_registro. intros E.
  apply bind_res_Val in E as (titulo & Ht & E).
  apply bind_res_Val in E as (link & Hl & E).
  apply bind_res_Val in E as (url & Hu & E).
  inversion E. exists titulo, link, url.
  repeat split; assumption.
Qed.

Lemma novo_registro_link p nome r link :
  novo_registro p nome = Val r -> getitem p "link" = Val link ->
  link_de r = link.
Proof.
  intros E Hl. apply novo_registro_inv in E
    as (titulo & link' & url & _ & Hl' & _ & ->).
  rewrite Hl in Hl'. inversion Hl'. reflexivity.
Qed.

Lemma set_contains_Val link seen visto :
  set_contains link seen = Val visto ->
  hashable link = true /\ visto = set_mem link seen.
Proof.
  unfold set_contains. destruct (hashable link); intros E; inversion E.
  split; reflexivity.
Qed.

Lemma primeiros_app seen i1 l1 : forall i2 l2,
  primeiros seen i1 l1 ->
  primeiros (seen ++ map link_de l1) i2 l2 ->
  primeiros seen (i1 ++ i2) (l1 ++ l2).
Proof.
  intros i2 l2 H1. induction H1 as
    [seen|seen p nome itens l link Hl Hh Hm H1 IH
         |seen p nome itens l link r Hl Hh Hm Hr H1 IH]; intros H2.
  - simpl in H2. rewrite app_nil_r in H2. exact H2.
  - simpl. eapply primeiros_skip; eauto.
  - simpl. eapply primeiros_keep; eauto. apply IH.
    unfold set_add. rewrite <- app_assoc. simpl in H2.
    rewrite (novo_registro_link _ _ _ _ Hr Hl) in H2. exact H2.
Qed.

Lemma primeiros_app_inv i1 : forall seen i2 l,
  primeiros seen (i1 ++ i2) l ->
  exists l1 l2, l = l1 ++ l2 /\ primeiros seen i1 l1 /\
                primeiros (seen ++ map link_de l1) i2 l2.
Proof.
  induction i1 as [|[p nome] i1 IH]; intros seen i2 l Hp.
  - exists [], l. simpl. rewrite app_nil_r. repeat split; [constructor|exact Hp].
  - simpl in Hp. inversion Hp; subst.
    + match goal with Hrest : primeiros seen (i1 ++ i2) l |- _ =>
        apply IH in Hrest as (l1 & l2 & -> & Ha & Hb) end.
      exists l1, l2. repeat split; [|exact Hb].
      eapply primeiros_skip; eauto.
    + match goal with Hrest : primeiros _ (i1 ++ i2) _ |- _ =>
        apply IH in Hrest as (l1 & l2 & -> & Ha & Hb) end.
      exists (r :: l1), l2. repeat split.
      * eapply primeiros_keep; eauto.
      * simpl. unfold set_add in Hb. rewrite <- app_assoc in Hb. simpl in Hb.
        erewrite novo_registro_link by eassumption. exact Hb.
Qed.

Section Endpoint.
Context {U : Type} `{Upstream U}.
Import SugerirPlaylists.

Lemma sp_para_cada_playlist_Val nome ps :
  forall acc seen (w : World U) st' w',
  para_cada_playlist nome ps (acc, seen) w = (Val st', w') ->
  w' = w /\ exists l, primeiros seen (map (fun p => (p, nome)) ps) l /\
                       st' = (acc ++ l, seen ++ map link_de l).
Proof.
  induction ps as [|p ps IH]; intros acc seen w st' w' E.
  - apply ret_Val in E as [-> ->]. split; [reflexivity|].
    exists []. simpl. rewrite !app_nil_r. split; [constructor | reflexivity].
  - unfold para_cada_playlist in E. rewrite for_each_cons in E.
    fold (para_cada_playlist (U:=U) nome ps) in E.
    passo E as st1 w1 E1. simpl in E1.
    puro E1 as link Hl. puro E1 as visto Hv.
    apply set_contains_Val in Hv as [Hh ->].
    destruct (set_mem link seen) eqn:Hm; simpl in E1.
    + apply ret_Val in E1 as [-> ->].
      apply IH in E as (-> & l & Hp & ->). split; [reflexivity|].
      exists l. split; [|reflexivity]. eapply primeiros_skip; eauto.
    + puro E1 as r Hr. puro E1 as link' Hl'.
      apply ret_Val in E1 as [-> ->].
      rewrite Hl in Hl'. inversion Hl'; subst link'.
      apply IH in E as (-> & l & Hp & ->). split; [reflexivity|].
      exists (r :: l). split.
      * eapply primeiros_keep; eauto.
      * simpl. unfold set_add. rewrite <- !app_assoc. simpl.
        rewrite (novo_registro_link _ _ _ _ Hr Hl). reflexivity.
Qed.

Lemma sp_para_cada_playlist_run nome ps :
  forall l acc seen (w : World U),
  primeiros seen (map (fun p => (p, nome)) ps) l ->
  para_cada_playlist nome ps (acc, seen) w
  = (Val (acc ++ l, seen ++ map link_de l), w).
Proof.
  induction ps as [|p ps IH]; intros l acc seen w Hp; inversion Hp; subst.
  - simpl. rewrite !app_nil_r. reflexivity.
  - unfold para_cada_playlist. rewrite for_each_cons.
    fold (para_cada_playlist (U:=U) nome ps).
    erewrite bind_run; [apply IH; eassumption|]. simpl.
    erewrite bind_run; [|unfold lift; f_equal; eassumption].
    erewrite bind_run;
      [|unfold lift, set_contains; f_equal;
        match goal with Hh : hashable _ = true |- _ => rewrite Hh end;
        reflexivity].
    match goal with Hm : set_mem _ _ = true |- _ => rewrite Hm end.
    reflexivity.
  - unfold para_cada_playlist. rewrite for_each_cons.
    fold (para_cada_playlist (U:=U) nome ps).
    match goal with
    | Hl : getitem p "link" = Val ?link, Hr : novo_registro p nome = Val ?r,
      Hh : hashable ?link = true, Hm : set_mem ?link seen = false,
      Hrest : primeiros _ _ ?l0 |- _ =>
        rename Hl into Hl'; rename Hr into Hr'; rename Hh into Hh';
        rename Hm into Hm'; rename Hrest into Hrest'
    end.
    replace (acc ++ r :: l0) with ((acc ++ [r]) ++ l0)
      by (rewrite <- app_assoc; reflexivity).
    replace (seen ++ map link_de (r :: l0))
      with (set_add link seen ++ map link_de l0)
      by (unfold set_add; rewrite <- app_assoc; simpl;
          rewrite (novo_registro_link _ _ _ _ Hr' Hl'); reflexivity).
    erewrite bind_run; [apply (IH _ _ _ w Hrest')|].
    simpl.
    erewrite bind_run; [|unfold lift; f_equal; exact Hl'].
    erewrite bind_run;
      [|unfold lift, set_contains; f_equal; rewrite Hh'; reflexivity].
    rewrite Hm'; simpl.
    erewrite bind_run; [|unfold lift; f_equal; exact Hr'].
    erewrite bind_run; [|unfold lift; f_equal; exact Hl'].
    reflexivity.
Qed.

Lemma sp_para_cada_canal_encontrado_Val cs :
  forall acc seen (w : World U) st' w' itens0,
  para_cada_canal_encontrado cs (acc, seen) w = (Val st', w') ->
  exists itens l,
    busca_playlists cs itens0 w = (Val (itens0 ++ itens), w') /\
    primeiros seen itens l /\ st' = (acc ++ l, seen ++ map link_de l).
Proof.
  induction cs as [|c cs IH]; intros acc seen w st' w' itens0 E.
  - apply ret_Val in E as [-> ->]. exists [], []. simpl. rewrite !app_nil_r.
    repeat split. constructor.
  - unfold para_cada_canal_encontrado in E. rewrite for_each_cons in E.
    fold (para_cada_canal_encontrado (U:=U) cs) in E.
    passo E as st1 w2 E1.
    puro E1 as nome Hn. passo E1 as resposta w1 Hs.
    puro E1 as r Hr. puro E1 as ps Hps.
    apply sp_para_cada_playlist_Val in E1 as (-> & l1 & Hp1 & ->).
    apply (IH _ _ _ _ _ (itens0 ++ map (fun p => (p, nome)) ps)) in E
      as (itens2 & l2 & Hb & Hp2 & ->).
    exists (map (fun p => (p, nome)) ps ++ itens2), (l1 ++ l2).
    split; [|split].
    + unfold busca_playlists. rewrite for_each_cons.
      fold (busca_playlists (U:=U) cs).
      erewrite bind_run; [rewrite app_assoc; exact Hb|].
      erewrite bind_run; [|unfold lift; f_equal; exact Hn].
      erewrite bind_run; [|exact Hs].
      erewrite bind_run;
        [|unfold lift; f_equal; eapply resultados_Val; eassumption].
      reflexivity.
    + apply primeiros_app; assumption.
    + rewrite map_app, !app_assoc. reflexivity.
Qed.

Lemma sp_para_cada_canal_encontrado_run cs :
  forall itens0 (w : World U) itens' w',
  busca_playlists cs itens0 w = (Val itens', w') ->
  exists itens, itens' = itens0 ++ itens /\
    forall l acc seen, primeiros seen itens l ->
      para_cada_canal_encontrado cs (acc, seen) w
      = (Val (acc ++ l, seen ++ map link_de l), w').
Proof.
  induction cs as [|c cs IH]; intros itens0 w itens' w' E.
  - apply ret_Val in E as [-> ->]. exists []. rewrite app_nil_r.
    split; [reflexivity|]. intros l acc seen Hp. inversion Hp; subst.
    simpl. rewrite !app_nil_r. reflexivity.
  - unfold busca_playlists in E. rewrite for_each_cons in E.
    fold (busca_playlists (U:=U) cs) in E.
    passo E as itens1 w2 E1.
    puro E1 as nome Hn. passo E1 as resposta w1 Hs. puro E1 as ps Hps.
    apply ret_Val in E1 as [-> ->].
    apply IH in E as (itens2 & -> & Hrun).
    exists (map (fun p => (p, nome)) ps ++ itens2).
    split; [rewrite app_assoc; reflexivity|].
    intros l acc seen Hp.
    apply primeiros_app_inv in Hp as (l1 & l2 & -> & Hp1 & Hp2).
    apply resultados_inv in Hps as (r & Hr & Hit).
    unfold para_cada_canal_encontrado. rewrite for_each_cons.
    fold (para_cada_canal_encontrado (U:=U) cs).
    erewrite bind_run;
      [rewrite map_app, !app_assoc; apply Hrun; exact Hp2|].
    erewrite bind_run; [|unfold lift; f_equal; exact Hn].
    erewrite bind_run; [|exact Hs].
    erewrite bind_run; [|unfold lift; f_equal; exact Hr].
    erewrite bind_run; [|unfold lift; f_equal; exact Hit].
    apply sp_para_cada_playlist_run. exact Hp1.
Qed.

Lemma sp_para_cada_canal_Val canais :
  forall acc seen (w : World U) st' w' itens0,
  para_cada_canal canais (acc, seen) w = (Val st', w') ->
  exists itens l,
    busca_desde canais itens0 w = (Val (itens0 ++ itens), w') /\
    primeiros seen itens l /\ st' = (acc ++ l, seen ++ map link_de l).
Proof.
  induction canais as [|canal canais IH];
    intros acc seen w st' w' itens0 E.
  - apply ret_Val in E as [-> ->]. exists [], []. simpl. rewrite !app_nil_r.
    repeat split. constructor.
  - unfold para_cada_canal in E. rewrite for_each_cons in E.
    fold (para_cada_canal (U:=U) canais) in E.
    passo E as st1 w2 E1.
    passo E1 as resposta w1 Hs. puro E1 as r Hr. puro E1 as cs Hcs.
    apply (sp_para_cada_canal_encontrado_Val _ _ _ _ _ _ itens0) in E1
      as (itens1 & l1 & Hb & Hp1 & ->).
    apply (IH _ _ _ _ _ (itens0 ++ itens1)) in E
      as (itens2 & l2 & Hb2 & Hp2 & ->).
    exists (itens1 ++ itens2), (l1 ++ l2). split; [|split].
    + unfold busca_desde. rewrite for_each_cons.
      fold (busca_desde (U:=U) canais).
      erewrite bind_run; [rewrite app_assoc; exact Hb2|].
      erewrite bind_run; [|exact Hs].
      erewrite bind_run;
        [|unfold lift; f_equal; eapply resultados_Val; eassumption].
      exact Hb.
    + apply primeiros_app; assumption.
    + rewrite map_app, !app_assoc. reflexivity.
Qed.

Lemma sp_para_cada_canal_run canais :
  forall itens0 (w : World U) itens' w',
  busca_desde canais itens0 w = (Val itens', w') ->
  exists itens, itens' = itens0 ++ itens /\
    forall l acc seen, primeiros seen itens l ->
      para_cada_canal canais (acc, seen) w
      = (Val (acc ++ l, seen ++ map link_de l), w').
Proof.
  induction canais as [|canal canais IH]; intros itens0 w itens' w' E.
  - apply ret_Val in E as [-> ->]. exists []. rewrite app_nil_r.
    split; [reflexivity|]. intros l acc seen Hp. inversion Hp; subst.
    simpl. rewrite !app_nil_r. reflexivity.
  - unfold busca_desde in E. rewrite for_each_cons in E.
    fold (busca_desde (U:=U) canais) in E.
    passo E as itens1 w2 E1.
    passo E1 as resposta w1 Hs. puro E1 as cs Hcs.
    apply sp_para_cada_canal_encontrado_run in E1 as (itens1' & -> & Hrun1).
    apply IH in E as (itens2 & -> & Hrun2).
    exists (itens1' ++ itens2).
    split; [rewrite app_assoc; reflexivity|].
    intros l acc seen Hp.
    apply primeiros_app_inv in Hp as (l1 & l2 & -> & Hp1 & Hp2).
    apply resultados_inv in Hcs as (r & Hr & Hit).
    unfold para_cada_canal. rewrite for_each_cons.
    fold (para_cada_canal (U:=U) canais).
    erewrite bind_run;
      [rewrite map_app, !app_assoc; apply Hrun2; exact Hp2|].
    erewrite bind_run; [|exact Hs].
    erewrite bind_run; [|unfold lift; f_equal; exact Hr].
    erewrite bind_run; [|unfold lift; f_equal; exact Hit].
    apply Hrun1. exact Hp1.
Qed.

(** The endpoint's loops from the empty list and the empty set: the
    shared lookup, with the first playlist of each link kept. *)
Lemma para_cada_canal_busca canais (w : World U) l seen w' :
  para_cada_canal canais ([], []) w = (Val (l, seen), w') <->
  exists itens, busca canais w = (Val itens, w') /\ primeiros [] itens l /\
                seen = map link_de l.
Proof.
  split.
  - intros E. apply (sp_para_cada_canal_Val _ _ _ _ _ _ []) in E
      as (itens & l' & Hb & Hp & Hst).
    simpl in Hst. inversion Hst; subst. exists itens. repeat split; assumption.
  - intros (itens & Hb & Hp & ->).
    apply sp_para_cada_canal_run in Hb as (itens1 & -> & Hrun).
    apply (Hrun l [] []). exact Hp.
Qed.

End Endpoint.

(** ** What deduplication by link keeps *)

Lemma py_eqb_refl v : hashable v = true -> py_eqb v v = true.
Proof.
  destruct v; simpl; intros Hh; try discriminate; try reflexivity.
  - destruct b; reflexivity.
  - apply Z.eqb_refl.
  - apply String.eqb_refl.
Qed.

Lemma py_eqb_sym a b : py_eqb a b = py_eqb b a.
Proof.
  destruct a, b; simpl; try reflexivity.
  - destruct b0, b; reflexivity.
  - apply Z.eqb_sym.
  - apply Z.eqb_sym.
  - apply Z.eqb_sym.
  - apply String.eqb_sym.
Qed.

Lemma py_eqb_trans a b c :
  py_eqb a b = true -> py_eqb b c = true -> py_eqb a c = true.
Proof.
  destruct a, b, c; simpl; try discriminate; try reflexivity;
    rewrite ?Z.eqb_eq, ?String.eqb_eq, ?Bool.eqb_true_iff;
    intros; subst; try reflexivity; try congruence.
  all: match goal with
       | |- context [Z.b2z ?x] => destruct x
       | _ => idtac
       end; simpl in *; try congruence.
  all: repeat match goal with
       | b : bool |- _ => destruct b
       end; simpl in *; congruence.
Qed.

Lemma set_mem_app v s1 s2 :
  set_mem v (s1 ++ s2) = set_mem v s1 || set_mem v s2.
Proof. unfold set_mem. apply existsb_app. Qed.

Lemma set_mem_add v x s :
  set_mem v (set_add x s) = set_mem v s || py_eqb v x.
Proof.
  unfold set_add. rewrite set_mem_app. simpl. rewrite orb_false_r. reflexivity.
Qed.

(** Equal values are in the same sets. *)
Lemma set_mem_eqb a b s :
  py_eqb a b = true -> set_mem a s = set_mem b s.
Proof.
  intros Hab. unfold set_mem. induction s as [|x s IH]; [reflexivity|].
  simpl. rewrite IH. f_equal.
  destruct (py_eqb a x) eqn:Ha, (py_eqb b x) eqn:Hb; try reflexivity.
  - rewrite py_eqb_sym in Hab.
    rewrite (py_eqb_trans _ _ _ Hab Ha) in Hb. discriminate.
  - rewrite (py_eqb_trans _ _ _ Hab Hb) in Ha. discriminate.
Qed.

(** Every record kept has a hashable link that was not in the set. *)
Lemma primeiros_novos seen itens l :
  primeiros seen itens l ->
  Forall (fun r => hashable (link_de r) = true /\
                   set_mem (link_de r) seen = false) l.
Proof.
  induction 1 as
    [seen|seen p nome itens l link Hl Hh Hm H1 IH
         |seen p nome itens l link r Hl Hh Hm Hr H1 IH].
  - constructor.
  - exact IH.
  - constructor.
    + rewrite (novo_registro_link _ _ _ _ Hr Hl). split; assumption.
    + eapply Forall_impl; [exact IH|]. simpl. intros r' [Hh' Hm'].
      rewrite set_mem_add in Hm'. apply orb_false_elim in Hm' as [Hm' _].
      split; assumption.
Qed.

Lemma primeiros_distintos seen itens l :
  primeiros seen itens l -> distintos l.
Proof.
  induction 1 as
    [seen|seen p nome itens l link Hl Hh Hm H1 IH
         |seen p nome itens l link r Hl Hh Hm Hr H1 IH].
  - exact I.
  - exact IH.
  - split; [|exact IH].
    apply primeiros_novos in H1.
    eapply Forall_impl; [exact H1|]. simpl. intros r' [_ Hm'].
    rewrite set_mem_add in Hm'. apply orb_false_elim in Hm' as [_ Hm'].
    rewrite (novo_registro_link _ _ _ _ Hr Hl), py_eqb_sym. exact Hm'.
Qed.

Lemma distintos_links_distintos rs : distintos rs -> links_distintos rs.
Proof.
  induction rs as [|r rs IH]; intros Hd i j ri rj Hij Hi Hj.
  - rewrite lookup_nil in Hi. discriminate.
  - destruct Hd as [Hr Hd]. rewrite Forall_forall in Hr.
    destruct i as [|i], j as [|j]; simpl in Hi, Hj.
    + congruence.
    + inversion Hi; subst. apply Hr.
      eapply list_elem_of_lookup_2. exact Hj.
    + inversion Hj; subst. rewrite py_eqb_sym. apply Hr.
      eapply list_elem_of_lookup_2. exact Hi.
    + apply (IH Hd i j); [congruence | assumption | assumption].
Qed.

Lemma primeiros_NoDup seen itens l :
  primeiros seen itens l -> NoDup (map link_de l).
Proof.
  intros Hp. pose proof (primeiros_novos _ _ _ Hp) as Hn.
  apply primeiros_distintos in Hp.
  induction l as [|r l IH]; [constructor|].
  destruct Hp as [Hr Hd]. inversion Hn as [|? ? [Hh _] Hn']; subst.
  simpl. apply NoDup_cons. split; [|apply IH; assumption].
  intros Hin. apply list_elem_of_In, in_map_iff in Hin as (r' & Heq & Hin).
  rewrite Forall_forall in Hr. apply list_elem_of_In in Hin.
  specialize (Hr r' Hin).
  rewrite Heq, py_eqb_refl in Hr by exact Hh. discriminate.
Qed.

Lemma link_de_getitem p link : getitem p "link" = Val link -> link_de p = link.
Proof. unfold link_de. intros ->. reflexivity. Qed.

Lemma primeiros_primeira_ocorrencia seen itens l :
  primeiros seen itens l -> Forall (primeira_ocorrencia itens) l.
Proof.
  induction 1 as
    [seen|seen p nome itens l link Hl Hh Hm H1 IH
         |seen p nome itens l link r Hl Hh Hm Hr H1 IH].
  - constructor.
  - pose proof (primeiros_novos _ _ _ H1) as Hn.
    rewrite Forall_forall in *. intros r Hin.
    destruct (IH r Hin) as (i & p0 & nome0 & Hi & Hr & Hbefore).
    destruct (Hn r Hin) as [_ Hm'].
    exists (S i), p0, nome0. repeat split; [exact Hi | exact Hr |].
    intros [|j] p' nome' Hj Hlook; simpl in Hlook.
    + inversion Hlook; subst p' nome'.
      rewrite (link_de_getitem _ _ Hl).
      destruct (py_eqb link (link_de r)) eqn:He; [|reflexivity].
      rewrite (set_mem_eqb _ _ _ He) in Hm. congruence.
    + apply (Hbefore j p' nome'); [lia | exact Hlook].
  - pose proof (primeiros_novos _ _ _ H1) as Hn.
    constructor.
    + exists 0%nat, p, nome. repeat split; [exact Hr|].
      intros j p' nome' Hj. lia.
    + rewrite Forall_forall in *. intros r' Hin.
      destruct (IH r' Hin) as (i & p0 & nome0 & Hi & Hr' & Hbefore).
      destruct (Hn r' Hin) as [_ Hm'].
      exists (S i), p0, nome0. repeat split; [exact Hi | exact Hr' |].
      intros [|j] p' nome' Hj Hlook; simpl in Hlook.
      * inversion Hlook; subst p' nome'.
        rewrite (link_de_getitem _ _ Hl).
        rewrite set_mem_add in Hm'. apply orb_false_elim in Hm' as [_ Hm'].
        rewrite py_eqb_sym. exact Hm'.
      * apply (Hbefore j p' nome'); [lia | exact Hlook].
Qed.

(** Every visited playlist has its link among the records kept, or in the
    set to begin with. *)
Lemma primeiros_cobre seen itens l :
  primeiros seen itens l ->
  Forall (fun item =>
    set_mem (link_de (fst item)) seen = true \/
    Exists (fun r => py_eqb (link_de (fst item)) (link_de r) = true) l) itens.
Proof.
  induction 1 as
    [seen|seen p nome itens l link Hl Hh Hm H1 IH
         |seen p nome itens l link r Hl Hh Hm Hr H1 IH].
  - constructor.
  - constructor; [|exact IH].
    left. simpl. rewrite (link_de_getitem _ _ Hl). exact Hm.
  - constructor.
    + right. simpl. apply Exists_cons_hd.
      rewrite (link_de_getitem _ _ Hl), (novo_registro_link _ _ _ _ Hr Hl).
      apply py_eqb_refl. exact Hh.
    + eapply Forall_impl; [exact IH|]. simpl. intros item [Hs|He].
      * rewrite set_mem_add in Hs. apply orb_true_iff in Hs as [Hs|Hs].
        -- left. exact Hs.
        -- right. apply Exists_cons_hd.
           rewrite (novo_registro_link _ _ _ _ Hr Hl). exact Hs.
      * right. apply Exists_cons_tl. exact He.
Qed.

Lemma primeiros_length seen itens l :
  primeiros seen itens l -> (length l <= length itens)%nat.
Proof. induction 1; simpl; lia. Qed.

(** Keeping the first playlist of each link and then building records is
    building records and then removing repeated links. *)
Lemma primeiros_sem_repetidos seen itens l :
  primeiros seen itens l -> forall rs,
  registros itens rs -> l = sem_repetidos seen rs.
Proof.
  induction 1 as
    [seen|seen p nome itens l link Hl Hh Hm H1 IH
         |seen p nome itens l link r Hl Hh Hm Hr H1 IH];
    intros rs Hrs; inversion Hrs as [|item r0 itens' rs' Hr0 Hrest]; subst.
  - reflexivity.
  - unfold registro_de in Hr0. simpl in Hr0. simpl.
    rewrite (novo_registro_link _ _ _ _ Hr0 Hl), Hm. apply IH. exact Hrest.
  - unfold registro_de in Hr0. simpl in Hr0. simpl.
    rewrite Hr in Hr0. inversion Hr0; subst r0.
    rewrite (novo_registro_link _ _ _ _ Hr Hl), Hm.
    f_equal. apply IH. exact Hrest.
Qed.

Lemma sem_repetidos_primeiros itens rs :
  registros itens rs ->
  Forall (fun r => hashable (link_de r) = true) rs ->
  forall seen, primeiros seen itens (sem_repetidos seen rs).
Proof.
  induction 1 as [|[p nome] r itens rs Hr Hrest IH]; intros Hh seen.
  - constructor.
  - inversion Hh as [|? ? Hh1 Hh2]; subst.
    unfold registro_de in Hr. simpl in Hr.
    destruct (novo_registro_inv _ _ _ Hr) as (t & link & url & _ & Hl & _ & _).
    pose proof (novo_registro_link _ _ _ _ Hr Hl) as Hlink.
    simpl. destruct (set_mem (link_de r) seen) eqn:Hm.
    + eapply primeiros_skip; eauto; rewrite <- Hlink; assumption.
    + eapply primeiros_keep; eauto; try (rewrite <- Hlink; assumption).
      rewrite <- Hlink. apply IH. exact Hh2.
Qed.

(** ** What every run does, whatever its outcome *)

Section Respeita.
Context {U : Type} (P : World U -> World U -> Prop).
Hypothesis P_refl : forall w, P w w.
Hypothesis P_trans : forall w1 w2 w3, P w1 w2 -> P w2 w3 -> P w1 w3.

Lemma respeita_ret {A} (a : A) : respeita P (ret a).
Proof using P_refl. intros w r w' E. inversion E; subst. apply P_refl. Qed.

Lemma respeita_lift {A} (x : res A) : respeita P (lift x).
Proof using P_refl. intros w r w' E. inversion E; subst. apply P_refl. Qed.

Lemma respeita_bind {A B} (m : M U A) (k : A -> M U B) :
  respeita P m -> (forall a, respeita P (k a)) -> respeita P (bind m k).
Proof using P_trans.
  intros Hm Hk w r w' E. unfold bind in E.
  destruct (m w) as [[a|e] w1] eqn:E1.
  - eapply P_trans; [eapply Hm; exact E1 | eapply Hk; exact E].
  - inversion E; subst. eapply Hm. exact E1.
Qed.

Lemma respeita_for_each {A S} (xs : list A) (body : A -> S -> M U S) :
  (forall x s, respeita P (body x s)) ->
  forall s, respeita P (for_each xs body s).
Proof using P_refl P_trans.
  intros Hbody. induction xs as [|x xs IH]; intros s.
  - apply respeita_ret.
  - rewrite for_each_cons. apply respeita_bind; [apply Hbody | exact IH].
Qed.

End Respeita.

Lemma buscou_refl {U} (w : World U) : buscou w w.
Proof.
  split; [apply so_buscas_refl|]. exists []. rewrite app_nil_r.
  split; reflexivity.
Qed.

Lemma buscou_trans {U} (w1 w2 w3 : World U) :
  buscou w1 w2 -> buscou w2 w3 -> buscou w1 w3.
Proof.
  intros [Hf1 (tr1 & Ht1 & Hl1)] [Hf2 (tr2 & Ht2 & Hl2)].
  split; [eapply so_buscas_trans; eassumption|].
  exists (tr1 ++ tr2). split.
  - rewrite Ht2, Ht1, app_assoc. reflexivity.
  - rewrite forallb_app, Hl1, Hl2. reflexivity.
Qed.

Section Runs.
Context {U : Type} `{Upstream U}.

Lemma ChannelsSearch_buscou q : respeita buscou (ChannelsSearch (U:=U) q 3).
Proof.
  intros w r w' E. unfold ChannelsSearch in E.
  destruct (channels_search q 3 (upstream w)) as [r0 u].
  inversion E; subst. split; [repeat split|].
  exists [EvChannels q 3 r]. split; reflexivity.
Qed.

Lemma PlaylistsSearch_buscou q : respeita buscou (PlaylistsSearch (U:=U) q 5).
Proof.
  intros w r w' E. unfold PlaylistsSearch in E.
  destruct (playlists_search q 5 (upstream w)) as [r0 u].
  inversion E; subst. split; [repeat split|].
  exists [EvPlaylists q 5 r]. split; reflexivity.
Qed.

(** Goes through a script statement by statement. *)
Ltac so_busca :=
  repeat first
    [ apply respeita_ret; exact buscou_refl
    | apply respeita_lift; exact buscou_refl
    | apply ChannelsSearch_buscou
    | apply PlaylistsSearch_buscou
    | apply respeita_for_each; [exact buscou_refl | exact buscou_trans | intros]
    | apply respeita_bind; [exact buscou_trans | | intros]
    | match goal with |- respeita _ (if ?b then _ else _) => destruct b end ].

Lemma playlists_da_categoria_buscou canais :
  respeita buscou (DailyUpdater.playlists_da_categoria (U:=U) canais).
Proof.
  unfold DailyUpdater.playlists_da_categoria, DailyUpdater.para_cada_canal,
    DailyUpdater.para_cada_canal_encontrado, DailyUpdater.para_cada_playlist.
  so_busca.
Qed.

Lemma para_cada_categoria_buscou mapping todas :
  respeita buscou (DailyUpdater.para_cada_categoria (U:=U) mapping todas).
Proof.
  unfold DailyUpdater.para_cada_categoria.
  apply respeita_for_each; [exact buscou_refl | exact buscou_trans |].
  intros item todas'.
  apply respeita_bind; [exact buscou_trans | | intros].
  - apply playlists_da_categoria_buscou.
  - apply respeita_ret. exact buscou_refl.
Qed.

Lemma sp_para_cada_canal_buscou canais st :
  respeita buscou (SugerirPlaylists.para_cada_canal (U:=U) canais st).
Proof.
  unfold SugerirPlaylists.para_cada_canal,
    SugerirPlaylists.para_cada_canal_encontrado,
    SugerirPlaylists.para_cada_playlist.
  so_busca.
Qed.

Lemma sugerir_playlists_buscou categoria :
  respeita buscou (SugerirPlaylists.sugerir_playlists (U:=U) categoria).
Proof.
  unfold SugerirPlaylists.sugerir_playlists.
  destruct (dict_get categoria SugerirPlaylists.categorias_canais).
  - apply respeita_bind; [exact buscou_trans | | intros].
    + apply sp_para_cada_canal_buscou.
    + apply respeita_ret. exact buscou_refl.
  - apply respeita_ret. exact buscou_refl.
Qed.

End Runs.

(** ** Counting what the answers contain *)

Lemma bloco_playlists_limite cs tr :
  bloco_playlists cs tr -> forallb limite_respeitado tr = true ->
  (length (visitados tr) <= 5 * length cs)%nat.
Proof.
  induction 1 as [|c cs nome resposta ps tr Hn Hps Hb IH]; intros Hl.
  - simpl. lia.
  - simpl in Hl. rewrite Hps in Hl. apply andb_prop in Hl as [Hl1 Hl2].
    apply Z.leb_le in Hl1. specialize (IH Hl2).
    simpl. rewrite Hps, length_app, length_map. lia.
Qed.

Lemma ordem_aninhada_limite canais tr :
  ordem_aninhada canais tr -> forallb limite_respeitado tr = true ->
  (length (visitados tr) <= 15 * length canais)%nat.
Proof.
  induction 1 as [|canal canais resposta cs tr1 tr2 Hcs Hb Ho IH]; intros Hl.
  - simpl. lia.
  - simpl in Hl. rewrite Hcs in Hl. apply andb_prop in Hl as [Hl1 Hl2].
    rewrite forallb_app in Hl2. apply andb_prop in Hl2 as [Hl2 Hl3].
    apply Z.leb_le in Hl1. specialize (IH Hl3).
    pose proof (bloco_playlists_limite _ _ Hb Hl2) as Hb5.
    simpl. rewrite visitados_app, length_app. lia.
Qed.

Lemma registros_length itens rs :
  registros itens rs -> length rs = length itens.
Proof. intros Hr. symmetry. eapply Forall2_length. exact Hr. Qed.

(** ** Where a record comes from *)

Lemma novo_registro_campos p nome r :
  novo_registro p nome = Val r -> registro_campos p nome r.
Proof.
  intros E. apply novo_registro_inv in E
    as (titulo & link & url & Ht & Hl & Hu & ->).
  apply thumbnail_de_inv in Hu as (primeiro & resto & Hth & Hurl).
  exists titulo, link, primeiro, resto, url. repeat split; assumption.
Qed.

Lemma bloco_playlists_visitados cs tr p nome :
  bloco_playlists cs tr -> In (p, nome) (visitados tr) ->
  exists c resposta_p ps,
    In c cs /\ getitem c "title" = Val nome /\
    In (EvPlaylists nome 5 (Val resposta_p)) tr /\
    resultados resposta_p = Val ps /\ In p ps.
Proof.
  induction 1 as [|c cs nome0 resposta ps tr Hn Hps Hb IH]; intros Hin.
  - destruct Hin.
  - simpl in Hin. rewrite Hps in Hin. apply in_app_iff in Hin as [Hin|Hin].
    + apply in_map_iff in Hin as (p0 & Heq & Hin). inversion Heq; subst.
      exists c, resposta, ps. repeat split; simpl; auto.
    + destruct (IH Hin) as (c' & rp & ps' & Hc & Ht & He & Hr & Hp).
      exists c', rp, ps'. repeat split; simpl; auto.
Qed.

Lemma ordem_aninhada_visitados canais tr p nome :
  ordem_aninhada canais tr -> In (p, nome) (visitados tr) ->
  encontrado canais tr p nome.
Proof.
  induction 1 as [|canal canais resposta cs tr1 tr2 Hcs Hb Ho IH]; intros Hin.
  - destruct Hin.
  - simpl in Hin. rewrite visitados_app in Hin.
    apply in_app_iff in Hin as [Hin|Hin].
    + destruct (bloco_playlists_visitados _ _ _ _ Hb Hin)
        as (c & rp & ps & Hc & Ht & He & Hr & Hp).
      exists canal, resposta, cs, c, rp, ps. repeat split; simpl; auto.
      right. apply in_app_iff. left. exact He.
    + destruct (IH Hin)
        as (canal' & rc & cs' & c & rp & ps & H1 & H2 & H3 & H4 & H5 & H6 & H7 & H8).
      exists canal', rc, cs', c, rp, ps. repeat split; simpl; auto;
        right; apply in_app_iff; right; assumption.
Qed.

Lemma registros_In itens l r :
  registros itens l -> In r l ->
  exists p nome, In (p, nome) itens /\ novo_registro p nome = Val r.
Proof.
  induction 1 as [|[p nome] r0 itens l Hr Hrest IH]; intros Hin.
  - destruct Hin.
  - destruct Hin as [->|Hin].
    + exists p, nome. split; [left; reflexivity | exact Hr].
    + destruct (IH Hin) as (p' & nome' & Hi & Hr').
      exists p', nome'. split; [right; exact Hi | exact Hr'].
Qed.

Lemma primeiros_In seen itens l r :
  primeiros seen itens l -> In r l ->
  exists p nome, In (p, nome) itens /\ novo_registro p nome = Val r.
Proof.
  induction 1 as
    [seen|seen p nome itens l link Hl Hh Hm H1 IH
         |seen p nome itens l link r0 Hl Hh Hm Hr H1 IH]; intros Hin.
  - destruct Hin.
  - destruct (IH Hin) as (p' & nome' & Hi & Hr').
    exists p', nome'. split; [right; exact Hi | exact Hr'].
  - destruct Hin as [->|Hin].
    + exists p, nome. split; [left; reflexivity | exact Hr].
    + destruct (IH Hin) as (p' & nome' & Hi & Hr').
      exists p', nome'. split; [right; exact Hi | exact Hr'].
Qed.

Lemma In_origem canais tr r p nome :
  ordem_aninhada canais tr -> In (p, nome) (visitados tr) ->
  novo_registro p nome = Val r -> origem canais tr r.
Proof.
  intros Ho Hin Hr. exists p, nome. split.
  - apply ordem_aninhada_visitados; assumption.
  - apply novo_registro_campos. exact Hr.
Qed.

(** ** Answers of the expected shape: both scripts complete *)

Lemma tem_chave_Val v k :
  tem_chave v k = true -> exists x, getitem v k = Val x.
Proof. unfold tem_chave. destruct (getitem v k); [eauto | discriminate]. Qed.

Lemma thumbnail_ok_iff p :
  thumbnail_ok p = true <-> exists url, thumbnail_de p = Val url.
Proof.
  split.
  - unfold thumbnail_ok, thumbnail_de. intros Hok.
    destruct (getitem p "thumbnails") as [[| | | |[|t l]|]|]; try discriminate.
    apply tem_chave_Val in Hok as [url Hurl]. exists url. exact Hurl.
  - intros [url Hurl].
    apply thumbnail_de_inv in Hurl as (primeiro & resto & Hth & Hurl).
    unfold thumbnail_ok, tem_chave. rewrite Hth, Hurl. reflexivity.
Qed.

Lemma playlist_ok_registro p nome :
  playlist_ok p = true ->
  exists r, novo_registro p nome = Val r /\ hashable (link_de r) = true.
Proof.
  unfold playlist_ok. intros Hok.
  apply andb_prop in Hok as [Hok Hth]. apply andb_prop in Hok as [Hok Hh].
  apply andb_prop in Hok as [Ht Hl].
  apply tem_chave_Val in Ht as [titulo Ht].
  apply tem_chave_Val in Hl as [link Hl].
  apply thumbnail_ok_iff in Hth as [url Hu].
  unfold novo_registro. rewrite Ht, Hl, Hu. simpl.
  eexists. split; [reflexivity|].
  rewrite (link_de_getitem _ _ Hl) in Hh. exact Hh.
Qed.

Lemma forallb_pares (ok : pyval -> bool) (nome : pyval) ps :
  forallb (fun item => ok (fst item)) (map (fun p => (p, nome)) ps)
  = forallb ok ps.
Proof.
  induction ps as [|p ps IH]; [reflexivity|]. simpl. rewrite IH. reflexivity.
Qed.

Lemma itens_ok_registros itens :
  itens_ok itens = true ->
  exists rs, registros itens rs /\
             Forall (fun r => hashable (link_de r) = true) rs.
Proof.
  induction itens as [|[p nome] itens IH]; intros Hok.
  - exists []. split; constructor.
  - simpl in Hok. apply andb_prop in Hok as [Hp Hok].
    destruct (IH Hok) as (rs & Hrs & Hh).
    destruct (playlist_ok_registro p nome Hp) as (r & Hr & Hhr).
    exists (r :: rs). split; constructor; assumption.
Qed.

Lemma resposta_ok_resultados ok answer :
  resposta_ok ok answer = true ->
  exists resposta xs, answer = Val resposta /\
    resultados resposta = Val xs /\ forallb ok xs = true.
Proof.
  unfold resposta_ok. destruct answer as [[| | | | |d]|]; try discriminate.
  destruct (dict_get "result" d) as [[| | | |xs|]|] eqn:E; try discriminate.
  intros Hok. exists (PDict d), xs. repeat split; [|exact Hok].
  unfold resultados. simpl. rewrite E. reflexivity.
Qed.

Section Total.
Context {U : Type} `{Upstream U}.
Hypothesis Hup : upstream_ok U.

Lemma ChannelsSearch_ok q n (w : World U) :
  exists resposta cs w', ChannelsSearch q n w = (Val resposta, w') /\
    resultados resposta = Val cs /\ forallb canal_ok cs = true.
Proof using Hup.
  destruct (Hup q n (upstream w)) as [Hc _]. unfold ChannelsSearch.
  destruct (channels_search q n (upstream w)) as [r u]. simpl in Hc.
  apply resposta_ok_resultados in Hc as (resposta & cs & -> & Hr & Hok).
  eauto 6.
Qed.

Lemma PlaylistsSearch_ok q n (w : World U) :
  exists resposta ps w', PlaylistsSearch q n w = (Val resposta, w') /\
    resultados resposta = Val ps /\ forallb playlist_ok ps = true.
Proof using Hup.
  destruct (Hup q n (upstream w)) as [_ Hp]. unfold PlaylistsSearch.
  destruct (playlists_search q n (upstream w)) as [r u]. simpl in Hp.
  apply resposta_ok_resultados in Hp as (resposta & ps & -> & Hr & Hok).
  eauto 6.
Qed.

Lemma busca_playlists_total cs : forall itens (w : World U),
  forallb canal_ok cs = true ->
  exists novos w', busca_playlists cs itens w = (Val (itens ++ novos), w') /\
                   itens_ok novos = true.
Proof using Hup.
  induction cs as [|c cs IH]; intros itens w Hok.
  - exists [], w. rewrite app_nil_r. split; reflexivity.
  - simpl in Hok. apply andb_prop in Hok as [Hc Hok].
    apply tem_chave_Val in Hc as [nome Hn].
    destruct (PlaylistsSearch_ok nome 5 w) as (resposta & ps & w1 & Hs & Hr & Hps).
    destruct (IH (itens ++ map (fun p => (p, nome)) ps) w1 Hok)
      as (novos & w' & Hb & Hnovos).
    exists (map (fun p => (p, nome)) ps ++ novos), w'. split.
    + unfold busca_playlists. rewrite for_each_cons.
      fold (busca_playlists (U:=U) cs).
      erewrite bind_run; [rewrite app_assoc; exact Hb|].
      erewrite bind_run; [|unfold lift; f_equal; exact Hn].
      erewrite bind_run; [|exact Hs].
      erewrite bind_run; [|unfold lift; f_equal; exact Hr].
      reflexivity.
    + unfold itens_ok in *. rewrite forallb_app, Hnovos, andb_true_r.
      rewrite forallb_pares. exact Hps.
Qed.

Lemma busca_desde_total canais : forall itens (w : World U),
  exists novos w', busca_desde canais itens w = (Val (itens ++ novos), w') /\
                   itens_ok novos = true.
Proof using Hup.
  induction canais as [|canal canais IH]; intros itens w.
  - exists [], w. rewrite app_nil_r. split; reflexivity.
  - destruct (ChannelsSearch_ok (PStr canal) 3 w)
      as (resposta & cs & w1 & Hs & Hr & Hcs).
    destruct (busca_playlists_total cs itens w1 Hcs)
      as (novos1 & w2 & Hb1 & Hok1).
    destruct (IH (itens ++ novos1) w2) as (novos2 & w' & Hb2 & Hok2).
    exists (novos1 ++ novos2), w'. split.
    + unfold busca_desde. rewrite for_each_cons.
      fold (busca_desde (U:=U) canais).
      erewrite bind_run; [rewrite app_assoc; exact Hb2|].
      erewrite bind_run; [|exact Hs].
      erewrite bind_run; [|unfold lift; f_equal; exact Hr].
      exact Hb1.
    + unfold itens_ok in *. rewrite forallb_app, Hok1, Hok2. reflexivity.
Qed.

Lemma playlists_da_categoria_total canais (w : World U) :
  exists l w', DailyUpdater.playlists_da_categoria canais w = (Val l, w').
Proof using Hup.
  destruct (busca_desde_total canais [] w) as (itens & w' & Hb & Hok).
  destruct (itens_ok_registros itens Hok) as (rs & Hrs & _).
  exists rs, w'. apply playlists_da_categoria_busca.
  exists itens. split; assumption.
Qed.

Lemma para_cada_categoria_total mapping : forall todas (w : World U),
  exists todas' w',
    DailyUpdater.para_cada_categoria mapping todas w = (Val todas', w').
Proof using Hup.
  induction mapping as [|item mapping IH]; intros todas w.
  - exists todas, w. reflexivity.
  - destruct (playlists_da_categoria_total (snd item) w) as (l & w1 & Hl).
    destruct (IH (dict_set (fst item) (PList l) todas) w1)
      as (todas' & w' & Hrest).
    exists todas', w'. unfold DailyUpdater.para_cada_categoria.
    rewrite for_each_cons. fold (DailyUpdater.para_cada_categoria (U:=U) mapping).
    erewrite bind_run; [exact Hrest|].
    erewrite bind_run; [|exact Hl]. reflexivity.
Qed.

Lemma atualizar_playlists_total (w : World U) :
  exists w', DailyUpdater.atualizar_playlists w = (Val tt, w').
Proof using Hup.
  destruct (para_cada_categoria_total DailyUpdater.categorias_canais [] w)
    as (todas & w1 & Ht).
  unfold DailyUpdater.atualizar_playlists.
  erewrite bind_run; [|exact Ht].
  eexists. reflexivity.
Qed.

Lemma sugerir_playlists_total categoria canais (w : World U) :
  dict_get categoria SugerirPlaylists.categorias_canais = Some canais ->
  exists l w',
    SugerirPlaylists.sugerir_playlists categoria w = (Val (PList l), w').
Proof using Hup.
  intros Hk. destruct (busca_desde_total canais [] w) as (itens & w' & Hb & Hok).
  destruct (itens_ok_registros itens Hok) as (rs & Hrs & Hh).
  pose proof (sem_repetidos_primeiros _ _ Hrs Hh []) as Hp.
  exists (sem_repetidos [] rs), w'.
  unfold SugerirPlaylists.sugerir_playlists. rewrite Hk.
  erewrite bind_run; cycle 1.
  { apply para_cada_canal_busca. exists itens.
    split; [exact Hb | split; [exact Hp | reflexivity]]. }
  reflexivity.
Qed.

End Total.

(** ** Dictionaries *)

Lemma dict_get_None {V} k (d : list (string * V)) :
  dict_get k d = None <-> ~ In k (dict_keys d).
Proof.
  induction d as [|[k' v] d IH]; simpl.
  - split; [intros _ [] | reflexivity].
  - destruct (String.eqb k k') eqn:E.
    + apply String.eqb_eq in E. subst. split; [discriminate|].
      intros Hn. exfalso. apply Hn. left. reflexivity.
    + apply String.eqb_neq in E. rewrite IH. split.
      * intros Hn [Heq|Hin]; [congruence | contradiction].
      * intros Hn Hin. apply Hn. right. exact Hin.
Qed.

Lemma dict_get_Some_In {V} k (d : list (string * V)) v :
  dict_get k d = Some v -> In (k, v) d.
Proof.
  induction d as [|[k' v'] d IH]; simpl; [discriminate|].
  destruct (String.eqb k k') eqn:E.
  - apply String.eqb_eq in E. intros Hv. inversion Hv; subst. left. reflexivity.
  - intros Hv. right. apply IH. exact Hv.
Qed.

Lemma dict_set_novo {V} k (v : V) d :
  ~ In k (dict_keys d) -> dict_set k v d = d ++ [(k, v)].
Proof.
  induction d as [|[k' v'] d IH]; simpl; intros Hn; [reflexivity|].
  destruct (String.eqb k k') eqn:E.
  - apply String.eqb_eq in E. exfalso. apply Hn. left. congruence.
  - f_equal. apply IH. intros Hin. apply Hn. right. exact Hin.
Qed.

(** ** The batch updater, category by category *)

Section BatchTop.
Context {U : Type} `{Upstream U}.
Import DailyUpdater.

Lemma por_categoria_keys mapping (w : World U) todas w' :
  por_categoria mapping w todas w' -> dict_keys todas = dict_keys mapping.
Proof. induction 1; simpl; [reflexivity | f_equal; assumption]. Qed.

Lemma para_cada_categoria_Val mapping :
  forall todas0 (w : World U) todas' w',
  NoDup (dict_keys mapping) ->
  (forall k, In k (dict_keys mapping) -> ~ In k (dict_keys todas0)) ->
  para_cada_categoria mapping todas0 w = (Val todas', w') ->
  exists todas, por_categoria mapping w todas w' /\ todas' = todas0 ++ todas.
Proof.
  induction mapping as [|[categoria canais] mapping IH];
    intros todas0 w todas' w' Hnd Hfresh E.
  - apply ret_Val in E as [-> ->]. exists []. rewrite app_nil_r.
    split; [constructor | reflexivity].
  - unfold para_cada_categoria in E. rewrite for_each_cons in E.
    fold (para_cada_categoria (U:=U) mapping) in E.
    passo E as todas1 w2 E1. passo E1 as l w1 Hl.
    apply ret_Val in E1 as [-> ->]. simpl in E.
    simpl in Hnd. apply NoDup_cons in Hnd as [Hnot Hnd].
    rewrite dict_set_novo in E by (apply Hfresh; left; reflexivity).
    apply IH in E as (todas & Hpc & ->); [|exact Hnd|].
    + exists ((categoria, PList l) :: todas). split.
      * econstructor; eassumption.
      * rewrite <- app_assoc. reflexivity.
    + intros k Hk Hin. unfold dict_keys in Hin. rewrite map_app in Hin.
      apply in_app_iff in Hin as [Hin|[<-|[]]].
      * apply (Hfresh k); [right; exact Hk | exact Hin].
      * apply Hnot. apply list_elem_of_In. exact Hk.
Qed.

Lemma categorias_canais_NoDup : NoDup (dict_keys categorias_canais).
Proof. apply (bool_decide_unpack _). vm_compute. reflexivity. Qed.

End BatchTop.

(** ** The timestamp *)

Lemma string_length_app (a b : string) :
  String.length (a ++ b)%string = (String.length a + String.length b)%nat.
Proof. induction a as [|c a IH]; simpl; [reflexivity | rewrite IH; reflexivity]. Qed.

Lemma padded_2_length n : (n < 100)%nat -> String.length (padded 2 n) = 2%nat.
Proof.
  intros Hn.
  assert (Hall : forallb (fun k => Nat.eqb (String.length (padded 2 k)) 2)
                         (seq 0 100) = true) by (vm_compute; reflexivity).
  rewrite forallb_forall in Hall. apply Nat.eqb_eq. apply Hall.
  apply in_seq. lia.
Qed.

Lemma padded_4_length n :
  (n < 100 * 100)%nat -> String.length (padded 4 n) = 4%nat.
Proof.
  intros Hn.
  assert (Hall : forallb (fun k => Nat.eqb (String.length (padded 4 k)) 4)
                         (seq 0 (100 * 100)) = true) by (vm_compute; reflexivity).
  rewrite forallb_forall in Hall. apply Nat.eqb_eq. apply Hall.
  apply in_seq. lia.
Qed.

(** For a date of the calendar, the timestamp has the 19 characters of
    [YYYY-MM-DD_HH-MM-SS]. *)
Lemma strftime_length t :
  (year t < 100 * 100)%nat -> (month t < 100)%nat -> (day t < 100)%nat ->
  (hour t < 100)%nat -> (minute t < 100)%nat -> (second t < 100)%nat ->
  String.length (strftime t) = 19%nat.
Proof.
  intros Hy Hm Hd HH HM HS. unfold strftime.
  rewrite !string_length_app.
  rewrite (padded_4_length _ Hy), (padded_2_length _ Hm),
    (padded_2_length _ Hd), (padded_2_length _ HH), (padded_2_length _ HM),
    (padded_2_length _ HS).
  reflexivity.
Qed.

(** * What the specification states *)

(** The two files carry the same mapping. *)
Lemma mesmas_categorias :
  DailyUpdater.categorias_canais = SugerirPlaylists.categorias_canais.
Proof. reflexivity. Qed.

Lemma app_igual {A} (l tr1 tr2 : list A) : l ++ tr1 = l ++ tr2 -> tr1 = tr2.
Proof. apply app_inv_head. Qed.

Section Claims.
Context {U : Type} `{Upstream U}.

(** A successful run of the endpoint's loops, read against the trace. *)
Lemma sugerir_playlists_inv categoria (w : World U) l w' :
  SugerirPlaylists.sugerir_playlists categoria w = (Val (PList l), w') ->
  exists canais tr,
    dict_get categoria SugerirPlaylists.categorias_canais = Some canais /\
    busca canais w = (Val (visitados tr), w') /\
    trace w' = trace w ++ tr /\ ordem_aninhada canais tr /\
    primeiros [] (visitados tr) l.
Proof.
  unfold SugerirPlaylists.sugerir_playlists. intros E.
  destruct (dict_get categoria SugerirPlaylists.categorias_canais)
    as [canais|] eqn:Hk.
  - passo E as st w1 E1. apply ret_Val in E as [E ->]. inversion E; subst l.
    destruct st as [l seen].
    apply para_cada_canal_busca in E1 as (itens & Hb & Hp & _).
    destruct (busca_trace _ _ _ _ Hb) as (tr & Ht & Ho & -> & _).
    exists canais, tr. repeat split; assumption.
  - apply ret_Val in E as [E _]. discriminate E.
Qed.

(** A successful collection of the batch updater, read against the
    trace. *)
Lemma playlists_da_categoria_inv canais (w : World U) l w' :
  DailyUpdater.playlists_da_categoria canais w = (Val l, w') ->
  exists tr,
    busca canais w = (Val (visitados tr), w') /\
    trace w' = trace w ++ tr /\ ordem_aninhada canais tr /\
    registros (visitados tr) l.
Proof.
  intros E. apply playlists_da_categoria_busca in E as (itens & Hb & Hr).
  destruct (busca_trace _ _ _ _ Hb) as (tr & Ht & Ho & -> & _).
  exists tr. repeat split; assumption.
Qed.

(** C2.  The list the query endpoint returns has pairwise distinct links
    (no two of them equal for Python, hence no two of them the same), and
    each record in it is the record of the first playlist visited with its
    link; every link visited is the link of some record. *)
Theorem sugerir_playlists_links_distintos categoria (w : World U) l w' :
  SugerirPlaylists.sugerir_playlists categoria w = (Val (PList l), w') ->
  In categoria (dict_keys SugerirPlaylists.categorias_canais) /\
  links_distintos l /\ NoDup (map link_de l) /\
  exists tr, trace w' = trace w ++ tr /\
    Forall (primeira_ocorrencia (visitados tr)) l /\
    links_cobertos (visitados tr) l.
Proof.
  intros E. apply sugerir_playlists_inv in E
    as (canais & tr & Hk & _ & Ht & _ & Hp).
  split; [|split; [|split]].
  - apply dict_get_Some_In in Hk. apply in_map_iff.
    exists (categoria, canais). split; [reflexivity | exact Hk].
  - apply distintos_links_distintos. eapply primeiros_distintos. exact Hp.
  - eapply primeiros_NoDup. exact Hp.
  - exists tr. split; [exact Ht|]. split.
    + eapply primeiros_primeira_ocorrencia. exact Hp.
    + apply primeiros_cobre in Hp. unfold links_cobertos.
      eapply Forall_impl; [exact Hp|]. simpl. intros item [Hs|He].
      * discriminate Hs.
      * exact He.
Qed.


(** Every run of the batch updater, taken apart: the searches, and then
    either an exception or the file and the line printed. *)
Lemma atualizar_playlists_desfecho (w : World U) r w' :
  DailyUpdater.atualizar_playlists w = (r, w') ->
  exists w1, buscou w w1 /\
    ((exists e, r = Raise e /\ w' = w1) \/
     (exists todas, r = Val tt /\
        por_categoria DailyUpdater.categorias_canais w todas w1 /\
        w' = mkWorld (upstream w1) (trace w1) (clock w1)
               (<[DailyUpdater.nome_do_arquivo (strftime (clock w1))
                    := PDict todas]> (files w1))
               (stdout w1 ++ ["Playlists atualizadas com sucesso!"]))).
Proof.
  intros E.
  destruct (DailyUpdater.para_cada_categoria
              DailyUpdater.categorias_canais [] w) as [[todas|e] w1] eqn:E1.
  - exists w1. split; [eapply para_cada_categoria_buscou; exact E1|].
    right. unfold DailyUpdater.atualizar_playlists in E.
    rewrite (bind_run _ _ _ _ _ E1) in E.
    apply para_cada_categoria_Val in E1 as (todas' & Hpc & ->);
      [|exact categorias_canais_NoDup|intros k _ []].
    exists todas'. inversion E. repeat split. exact Hpc.
  - exists w1. split; [eapply para_cada_categoria_buscou; exact E1|].
    left. unfold DailyUpdater.atualizar_playlists in E.
    rewrite (bind_raise _ _ _ _ _ E1) in E. inversion E. eauto.
Qed.

(** C4.  For a category with seed names [canais]: every search either
    script makes, in a whole run of the batch updater too, asks for at most
    3 channels or at most 5 playlists; and
    when no answer holds more entries than were asked for, the batch
    updater collects at most [15 * length canais] records and the endpoint,
    out of at most that many playlists visited, returns at most that
    many. *)
Theorem limites_das_buscas categoria canais (w : World U) :
  dict_get categoria SugerirPlaylists.categorias_canais = Some canais ->
  (forall r w',
     DailyUpdater.playlists_da_categoria canais w = (r, w') ->
     exists tr, trace w' = trace w ++ tr /\
       forallb limite_pedido tr = true /\
       (forallb limite_respeitado tr = true -> forall l, r = Val l ->
        (length l <= 15 * length canais)%nat)) /\
  (forall r w',
     SugerirPlaylists.sugerir_playlists categoria w = (r, w') ->
     exists tr, trace w' = trace w ++ tr /\
       forallb limite_pedido tr = true /\
       (forallb limite_respeitado tr = true -> forall l, r = Val (PList l) ->
        (length (visitados tr) <= 15 * length canais)%nat /\
        (length l <= 15 * length canais)%nat)) /\
  (forall r w',
     DailyUpdater.atualizar_playlists w = (r, w') ->
     exists tr, trace w' = trace w ++ tr /\
                forallb limite_pedido tr = true).
Proof.
  intros Hk. split; [|split]; intros r w' E.
  - destruct (playlists_da_categoria_buscou _ _ _ _ E) as [_ (tr & Ht & Hl)].
    exists tr. repeat split; [exact Ht | exact Hl |].
    intros Hresp l ->.
    apply playlists_da_categoria_inv in E as (tr' & _ & Ht' & Ho & Hr).
    rewrite Ht in Ht'. apply app_igual in Ht'. subst tr'.
    rewrite (registros_length _ _ Hr).
    apply ordem_aninhada_limite; assumption.
  - destruct (sugerir_playlists_buscou _ _ _ _ E) as [_ (tr & Ht & Hl)].
    exists tr. split; [exact Ht|]. split; [exact Hl|].
    intros Hresp l ->.
    apply sugerir_playlists_inv in E
      as (canais' & tr' & Hk' & _ & Ht' & Ho & Hp).
    rewrite Hk in Hk'. inversion Hk'; subst canais'.
    rewrite Ht in Ht'. apply app_igual in Ht'. subst tr'.
    pose proof (ordem_aninhada_limite _ _ Ho Hresp) as Hb.
    split; [exact Hb|]. apply primeiros_length in Hp. lia.
  - apply atualizar_playlists_desfecho in E
      as (w1 & [_ Htr] & [(e & _ & ->)|(todas & _ & _ & ->)]); exact Htr.
Qed.

(** C7.  Both scripts search in the same nested order: for each seed name,
    in the mapping's order, the channel search and then, for each channel
    record of its answer, in order, the playlist search on that record's
    title.  The batch updater's list is the records of the playlists
    visited, in the order visited; the endpoint's list is, in that same
    order, the records of those whose link was not seen before. *)
Theorem ordem_das_buscas categoria canais (w : World U) :
  dict_get categoria SugerirPlaylists.categorias_canais = Some canais ->
  (forall l w',
     DailyUpdater.playlists_da_categoria canais w = (Val l, w') ->
     exists tr, trace w' = trace w ++ tr /\ ordem_aninhada canais tr /\
                registros (visitados tr) l) /\
  (forall l w',
     SugerirPlaylists.sugerir_playlists categoria w = (Val (PList l), w') ->
     exists tr, trace w' = trace w ++ tr /\ ordem_aninhada canais tr /\
                primeiros [] (visitados tr) l).
Proof.
  intros Hk. split; intros l w' E.
  - apply playlists_da_categoria_inv in E as (tr & _ & Ht & Ho & Hr).
    exists tr. repeat split; assumption.
  - apply sugerir_playlists_inv in E
      as (canais' & tr & Hk' & _ & Ht & Ho & Hp).
    rewrite Hk in Hk'. inversion Hk'; subst canais'.
    exists tr. repeat split; assumption.
Qed.

(** C8.  From the same world, for a category of the mapping: whatever the
    endpoint returns is the batch updater's list for that category with all
    but the first record of each link removed, and the searches made are
    the same; the endpoint does return when the links of that list are
    hashable. *)
Theorem sugerir_playlists_refina_lote categoria canais (w : World U) l w' :
  dict_get categoria SugerirPlaylists.categorias_canais = Some canais ->
  DailyUpdater.playlists_da_categoria canais w = (Val l, w') ->
  (forall v w'',
     SugerirPlaylists.sugerir_playlists categoria w = (Val v, w'') ->
     v = PList (sem_repetidos [] l) /\ w'' = w') /\
  (Forall (fun r => hashable (link_de r) = true) l ->
   SugerirPlaylists.sugerir_playlists categoria w
     = (Val (PList (sem_repetidos [] l)), w')).
Proof.
  intros Hk E. apply playlists_da_categoria_busca in E as (itens & Hb & Hr).
  unfold SugerirPlaylists.sugerir_playlists. rewrite Hk. split.
  - intros v w'' E'. passo E' as st w1 E1. apply ret_Val in E' as [-> ->].
    destruct st as [l' seen].
    apply para_cada_canal_busca in E1 as (itens' & Hb' & Hp & _).
    rewrite Hb in Hb'. inversion Hb'; subst itens' w1. simpl.
    rewrite (primeiros_sem_repetidos _ _ _ Hp _ Hr). split; reflexivity.
  - intros Hh. erewrite bind_run; cycle 1.
    { apply para_cada_canal_busca. exists itens.
      split; [exact Hb | split; [|reflexivity]].
      apply (sem_repetidos_primeiros _ _ Hr Hh). }
    reflexivity.
Qed.

(** C9.  Every record either script emits is a dict with exactly the
    fields 'titulo', 'link', 'thumbnail' and 'canal', in that order:
    'titulo' and 'link' are the 'title' and 'link' of a playlist entry,
    'thumbnail' is the 'url' of the first element of that entry's
    'thumbnails' list, and 'canal' is the 'title' of the channel record,
    found by the channel search on a seed name, whose playlist search
    returned the entry. *)
Theorem origem_dos_registros categoria canais (w : World U) :
  dict_get categoria SugerirPlaylists.categorias_canais = Some canais ->
  (forall l w',
     DailyUpdater.playlists_da_categoria canais w = (Val l, w') ->
     exists tr, trace w' = trace w ++ tr /\ Forall (origem canais tr) l) /\
  (forall l w',
     SugerirPlaylists.sugerir_playlists categoria w = (Val (PList l), w') ->
     exists tr, trace w' = trace w ++ tr /\ Forall (origem canais tr) l).
Proof.
  intros Hk. split; intros l w' E.
  - apply playlists_da_categoria_inv in E as (tr & _ & Ht & Ho & Hr).
    exists tr. split; [exact Ht|]. apply Forall_forall. intros r Hin.
    apply list_elem_of_In in Hin.
    destruct (registros_In _ _ _ Hr Hin) as (p & nome & Hi & Hn).
    eapply In_origem; eassumption.
  - apply sugerir_playlists_inv in E
      as (canais' & tr & Hk' & _ & Ht & Ho & Hp).
    rewrite Hk in Hk'. inversion Hk'; subst canais'.
    exists tr. split; [exact Ht|]. apply Forall_forall. intros r Hin.
    apply list_elem_of_In in Hin.
    destruct (primeiros_In _ _ _ _ Hp Hin) as (p & nome & Hi & Hn).
    eapply In_origem; eassumption.
Qed.

(** C10.  The access [p['thumbnails'][0]['url']] has no guard: it yields a
    value exactly for an entry with a non-empty 'thumbnails' list whose
    first element has a 'url' key, and without that no record is built (an
    empty list raises IndexError, a first element without the key raises
    KeyError), as in the run where both scripts end in IndexError.  When
    every answer of the platform has the expected shape, the batch updater
    runs to its end and the endpoint returns a list for every category of
    the mapping. *)
Theorem acesso_sem_guarda :
  (upstream_ok U ->
   forall w : World U,
     (exists w', DailyUpdater.atualizar_playlists w = (Val tt, w')) /\
     (forall categoria,
        In categoria (dict_keys SugerirPlaylists.categorias_canais) ->
        exists l w',
          SugerirPlaylists.sugerir_playlists categoria w
            = (Val (PList l), w'))) /\
  (forall p, thumbnail_ok p = true <-> exists url, thumbnail_de p = Val url) /\
  (forall p nome, thumbnail_ok p = false ->
                  exists e, novo_registro p nome = Raise e) /\
  (forall p, getitem p "thumbnails" = Val (PList []) ->
             thumbnail_de p = Raise IndexError) /\
  (forall p d resto,
     getitem p "thumbnails" = Val (PList (PDict d :: resto)) ->
     dict_get "url" d = None ->
     thumbnail_de p = Raise (KeyError (PStr "url"))) /\
  fst (DailyUpdater.atualizar_playlists (mundo roteiro_sem_thumbnail))
    = Raise IndexError /\
  fst (SugerirPlaylists.sugerir_playlists "Marketing Digital"
         (mundo roteiro_sem_thumbnail)) = Raise IndexError.
Proof.
  split; [|split; [|split; [|split; [|split; [|split]]]]].
  - intros Hup w. split.
    + apply atualizar_playlists_total. exact Hup.
    + intros categoria Hin.
      destruct (dict_get categoria SugerirPlaylists.categorias_canais)
        as [canais|] eqn:Hk.
      * eapply sugerir_playlists_total; eassumption.
      * apply dict_get_None in Hk. contradiction.
  - apply thumbnail_ok_iff.
  - intros p nome Hok. destruct (novo_registro p nome) as [r|e] eqn:E.
    + apply novo_registro_inv in E as (t & l & url & _ & _ & Hu & _).
      assert (Ht : thumbnail_ok p = true) by (apply thumbnail_ok_iff; eauto).
      congruence.
    + eauto.
  - intros p Hth. unfold thumbnail_de. rewrite Hth. reflexivity.
  - intros p d resto Hth Hd. unfold thumbnail_de. rewrite Hth. simpl.
    rewrite Hd. reflexivity.
  - vm_compute. reflexivity.
  - vm_compute. reflexivity.
Qed.

End Claims.

(** C1.  On the platform [fixo], where both seed names of a category lead
    to the same channel, the list the batch updater stores under
    "Inteligência Artificial" holds the playlist of link
    "https://yt/pl1" twice: the list is not deduplicated. *)
Theorem atualizar_playlists_repete_links :
  exists todas l r,
    files (snd (DailyUpdater.atualizar_playlists (mundo tt)))
      !! "playlists_2024-05-07_09-03-41.json" = Some (PDict todas) /\
    dict_get "Inteligência Artificial" todas = Some (PList l) /\
    l !! 0%nat = Some r /\ l !! 2%nat = Some r /\
    link_de r = PStr "https://yt/pl1" /\
    ~ links_distintos l.
Proof.
  eexists _, _, _. split; [vm_compute; reflexivity|].
  split; [vm_compute; reflexivity|].
  split; [reflexivity|]. split; [reflexivity|]. split; [reflexivity|].
  intros Hd. specialize (Hd 0%nat 2%nat _ _ ltac:(discriminate)
                            eq_refl eq_refl).
  vm_compute in Hd. discriminate Hd.
Qed.

(** ** The statements at work on example runs *)

Lemma fixo_ok : upstream_ok unit.
Proof. intros q n u. split; reflexivity. Qed.

Lemma sugerir_playlists_links_distintos_exemplo :
  SugerirPlaylists.sugerir_playlists "Marketing Digital" (mundo tt)
    = (Val (PList sugestao_fixo), mundo_buscado) /\
  (In "Marketing Digital" (dict_keys SugerirPlaylists.categorias_canais) /\
   links_distintos sugestao_fixo /\ NoDup (map link_de sugestao_fixo) /\
   exists tr, trace mundo_buscado = trace (mundo tt) ++ tr /\
     Forall (primeira_ocorrencia (visitados tr)) sugestao_fixo /\
     links_cobertos (visitados tr) sugestao_fixo).
Proof.
  assert (E : SugerirPlaylists.sugerir_playlists "Marketing Digital" (mundo tt)
              = (Val (PList sugestao_fixo), mundo_buscado))
    by (vm_compute; reflexivity).
  split; [exact E|].
  exact (sugerir_playlists_links_distintos _ _ _ _ E).
Defined.

Lemma limites_das_buscas_exemplo :
  dict_get "Marketing Digital" SugerirPlaylists.categorias_canais
    = Some ["Marketing Total"; "Growth Hacker"] /\
  exists tr, trace mundo_buscado = trace (mundo tt) ++ tr /\
    forallb limite_pedido tr = true /\
    (forallb limite_respeitado tr = true ->
     forall l, Val (PList sugestao_fixo) = Val (PList l) ->
     (length (visitados tr) <= 15 * 2)%nat /\ (length l <= 15 * 2)%nat).
Proof.
  assert (Hk : dict_get "Marketing Digital" SugerirPlaylists.categorias_canais
               = Some ["Marketing Total"; "Growth Hacker"]) by reflexivity.
  split; [exact Hk|].
  apply (proj1 (proj2 (limites_das_buscas _ _ (mundo tt) Hk))).
  vm_compute. reflexivity.
Defined.

(** With no channel found, each category still has its (empty) list. *)
Example categorias_sem_playlists :
  files mundo_vazio_atualizado !! "playlists_2024-05-07_09-03-41.json"
  = Some (PDict [ ("Inteligência Artificial", PList []);
                  ("Marketing Digital", PList []) ]).
Proof. vm_compute. reflexivity. Qed.

Example nome_do_arquivo_exemplo :
  DailyUpdater.nome_do_arquivo (strftime (mkDatetime 2024 5 7 9 3 41))
  = "playlists_2024-05-07_09-03-41.json".
Proof. reflexivity. Qed.

Lemma ordem_das_buscas_exemplo :
  dict_get "Marketing Digital" SugerirPlaylists.categorias_canais
    = Some ["Marketing Total"; "Growth Hacker"] /\
  exists tr, trace mundo_buscado = trace (mundo tt) ++ tr /\
    ordem_aninhada ["Marketing Total"; "Growth Hacker"] tr /\
    registros (visitados tr) lote_fixo.
Proof.
  assert (Hk : dict_get "Marketing Digital" SugerirPlaylists.categorias_canais
               = Some ["Marketing Total"; "Growth Hacker"]) by reflexivity.
  split; [exact Hk|].
  apply (proj1 (ordem_das_buscas _ _ (mundo tt) Hk)).
  vm_compute. reflexivity.
Defined.

Lemma sugerir_playlists_refina_lote_exemplo :
  dict_get "Marketing Digital" SugerirPlaylists.categorias_canais
    = Some ["Marketing Total"; "Growth Hacker"] /\
  DailyUpdater.playlists_da_categoria ["Marketing Total"; "Growth Hacker"]
    (mundo tt) = (Val lote_fixo, mundo_buscado) /\
  SugerirPlaylists.sugerir_playlists "Marketing Digital" (mundo tt)
    = (Val (PList (sem_repetidos [] lote_fixo)), mundo_buscado).
Proof.
  assert (Hk : dict_get "Marketing Digital" SugerirPlaylists.categorias_canais
               = Some ["Marketing Total"; "Growth Hacker"]) by reflexivity.
  assert (E : DailyUpdater.playlists_da_categoria
                ["Marketing Total"; "Growth Hacker"] (mundo tt)
              = (Val lote_fixo, mundo_buscado)) by (vm_compute; reflexivity).
  split; [exact Hk|]. split; [exact E|].
  apply (proj2 (sugerir_playlists_refina_lote _ _ _ _ _ Hk E)).
  repeat constructor.
Defined.

(** Four records collected, two kept. *)
Example sem_repetidos_exemplo :
  length lote_fixo = 4%nat /\ sem_repetidos [] lote_fixo = sugestao_fixo /\
  map link_de sugestao_fixo = [PStr "https://yt/pl1"; PStr "https://yt/pl2"].
Proof. repeat split. Qed.

Lemma origem_dos_registros_exemplo :
  dict_get "Marketing Digital" SugerirPlaylists.categorias_canais
    = Some ["Marketing Total"; "Growth Hacker"] /\
  exists tr, trace mundo_buscado = trace (mundo tt) ++ tr /\
    Forall (origem ["Marketing Total"; "Growth Hacker"] tr) sugestao_fixo.
Proof.
  assert (Hk : dict_get "Marketing Digital" SugerirPlaylists.categorias_canais
               = Some ["Marketing Total"; "Growth Hacker"]) by reflexivity.
  split; [exact Hk|].
  apply (proj2 (origem_dos_registros _ _ (mundo tt) Hk)).
  vm_compute. reflexivity.
Defined.

(** The 'canal' of a record is the title of the channel found, "Canal X",
    not the seed name searched for. *)
Example canal_do_registro :
  map (fun r => getitem r "canal") sugestao_fixo
  = [Val (PStr "Canal X"); Val (PStr "Canal X")] /\
  ~ In "Canal X" ["Marketing Total"; "Growth Hacker"].
Proof.
  split; [reflexivity|]. intros [E|[E|[]]]; discriminate E.
Qed.

Lemma acesso_sem_guarda_exemplo :
  upstream_ok unit /\
  (exists w', DailyUpdater.atualizar_playlists (mundo tt) = (Val tt, w')) /\
  (forall categoria,
     In categoria (dict_keys SugerirPlaylists.categorias_canais) ->
     exists l w',
       SugerirPlaylists.sugerir_playlists categoria (mundo tt)
       = (Val (PList l), w')).
Proof.
  split; [exact fixo_ok|].
  exact (proj1 acesso_sem_guarda fixo_ok (mundo tt)).
Defined.


(** * Further properties of the two scripts *)

(** ** A failed search ends the run *)

Lemma encerra_nil o : encerra [] o.
Proof. left. reflexivity. Qed.

(** After searches that were all answered, the run goes on. *)
Lemma encerra_app tr1 tr2 o :
  forallb respondida tr1 = true -> encerra tr2 o -> encerra (tr1 ++ tr2) o.
Proof.
  intros H1 [H2|(pre & ev & e & -> & Hpre & Hev & Ho)].
  - left. rewrite forallb_app, H1, H2. reflexivity.
  - right. exists (tr1 ++ pre), ev, e. rewrite app_assoc.
    repeat split; try assumption. rewrite forallb_app, H1, Hpre. reflexivity.
Qed.

(** A run that ended without an exception had all its searches answered. *)
Lemma encerra_None tr : encerra tr None -> forallb respondida tr = true.
Proof.
  intros [Hall|(pre & ev & e & _ & _ & _ & Ho)]; [exact Hall | discriminate Ho].
Qed.

Section ParaNaFalha.
Context {U : Type} `{Upstream U}.

Lemma para_na_falha_ret {A} (a : A) : para_na_falha (ret (U:=U) a).
Proof.
  intros w r w' E. inversion E; subst. exists []. rewrite app_nil_r.
  split; [reflexivity | apply encerra_nil].
Qed.

Lemma para_na_falha_lift {A} (x : res A) : para_na_falha (lift (U:=U) x).
Proof.
  intros w r w' E. inversion E; subst. exists []. rewrite app_nil_r.
  split; [reflexivity | apply encerra_nil].
Qed.

Lemma para_na_falha_bind {A B} (m : M U A) (k : A -> M U B) :
  para_na_falha m -> (forall a, para_na_falha (k a)) ->
  para_na_falha (bind m k).
Proof.
  intros Hm Hk w r w' E. unfold bind in E.
  destruct (m w) as [[a|e] w1] eqn:E1.
  - destruct (Hm _ _ _ E1) as (tr1 & Ht1 & He1).
    destruct (Hk a _ _ _ E) as (tr2 & Ht2 & He2).
    exists (tr1 ++ tr2). split.
    + rewrite Ht2, Ht1, app_assoc. reflexivity.
    + apply encerra_app; [apply encerra_None; exact He1 | exact He2].
  - inversion E; subst. destruct (Hm _ _ _ E1) as (tr1 & Ht1 & He1).
    exists tr1. split; assumption.
Qed.

Lemma para_na_falha_for_each {A S} (xs : list A) (body : A -> S -> M U S) :
  (forall x s, para_na_falha (body x s)) ->
  forall s, para_na_falha (for_each xs body s).
Proof.
  intros Hbody. induction xs as [|x xs IH]; intros s.
  - apply para_na_falha_ret.
  - rewrite for_each_cons. apply para_na_falha_bind; [apply Hbody | exact IH].
Qed.

Lemma para_na_falha_ChannelsSearch q n :
  para_na_falha (ChannelsSearch (U:=U) q n).
Proof.
  intros w r w' E. unfold ChannelsSearch in E.
  destruct (channels_search q n (upstream w)) as [r0 u].
  inversion E; subst. exists [EvChannels q n r]. split; [reflexivity|].
  destruct r as [v|e].
  - left. reflexivity.
  - right. exists [], (EvChannels q n (Raise e)), e. repeat split.
Qed.

Lemma para_na_falha_PlaylistsSearch q n :
  para_na_falha (PlaylistsSearch (U:=U) q n).
Proof.
  intros w r w' E. unfold PlaylistsSearch in E.
  destruct (playlists_search q n (upstream w)) as [r0 u].
  inversion E; subst. exists [EvPlaylists q n r]. split; [reflexivity|].
  destruct r as [v|e].
  - left. reflexivity.
  - right. exists [], (EvPlaylists q n (Raise e)), e. repeat split.
Qed.

Lemma para_na_falha_local {A} (m : M U A) :
  (forall w, trace (snd (m w)) = trace w /\ excecao (fst (m w)) = None) ->
  para_na_falha m.
Proof.
  intros Hm w r w' E. destruct (Hm w) as [Ht _]. rewrite E in Ht. simpl in Ht.
  exists []. rewrite app_nil_r. split; [exact Ht | apply encerra_nil].
Qed.

Ltac sem_retentar :=
  repeat first
    [ apply para_na_falha_ret
    | apply para_na_falha_lift
    | apply para_na_falha_ChannelsSearch
    | apply para_na_falha_PlaylistsSearch
    | apply para_na_falha_for_each; intros
    | apply para_na_falha_bind; [| intros]
    | match goal with
      | |- para_na_falha (if ?b then _ else _) => destruct b
      end ].

Lemma para_na_falha_atualizar_playlists :
  para_na_falha (DailyUpdater.atualizar_playlists (U:=U)).
Proof.
  unfold DailyUpdater.atualizar_playlists, DailyUpdater.para_cada_categoria,
    DailyUpdater.playlists_da_categoria, DailyUpdater.para_cada_canal,
    DailyUpdater.para_cada_canal_encontrado, DailyUpdater.para_cada_playlist.
  sem_retentar; apply para_na_falha_local; intros w; split; reflexivity.
Qed.

Lemma para_na_falha_sugerir_playlists categoria :
  para_na_falha (SugerirPlaylists.sugerir_playlists (U:=U) categoria).
Proof.
  unfold SugerirPlaylists.sugerir_playlists.
  destruct (dict_get categoria SugerirPlaylists.categorias_canais);
    [|apply para_na_falha_ret].
  unfold SugerirPlaylists.para_cada_canal,
    SugerirPlaylists.para_cada_canal_encontrado,
    SugerirPlaylists.para_cada_playlist.
  sem_retentar.
Qed.

(** X1.  Neither script catches or retries a failed search: in any run of
    the batch updater or of the endpoint, either every search was answered,
    or the last search made is the only one that raised and the run ended
    with that very exception. *)
Theorem falha_de_busca_encerra categoria (w : World U) :
  (forall r w', DailyUpdater.atualizar_playlists w = (r, w') ->
     exists tr, trace w' = trace w ++ tr /\ encerra tr (excecao r)) /\
  (forall r w', SugerirPlaylists.sugerir_playlists categoria w = (r, w') ->
     exists tr, trace w' = trace w ++ tr /\ encerra tr (excecao r)).
Proof.
  split; intros r w' E.
  - exact (para_na_falha_atualizar_playlists _ _ _ E).
  - exact (para_na_falha_sugerir_playlists categoria _ _ _ E).
Qed.

End ParaNaFalha.

(** ** How many searches a completed run makes *)

Lemma bloco_playlists_contagem cs tr :
  bloco_playlists cs tr ->
  length tr = length cs /\ forallb busca_de_playlists tr = true /\
  canais_achados tr = [].
Proof.
  induction 1 as [|c cs nome resposta ps tr Hn Hps Hb (IH1 & IH2 & IH3)].
  - repeat split.
  - simpl. rewrite IH1, IH2, IH3. repeat split.
Qed.

Lemma filter_nenhum {A} (f : A -> bool) l :
  forallb (fun x => negb (f x)) l = true -> List.filter f l = [].
Proof.
  induction l as [|x l IH]; simpl; [reflexivity|].
  intros Hl. apply andb_prop in Hl as [Hx Hl].
  destruct (f x); [discriminate Hx | apply IH; exact Hl].
Qed.

Lemma filter_todos {A} (f : A -> bool) l :
  forallb f l = true -> List.filter f l = l.
Proof.
  induction l as [|x l IH]; simpl; [reflexivity|].
  intros Hl. apply andb_prop in Hl as [Hx Hl].
  rewrite Hx, IH by exact Hl. reflexivity.
Qed.

Lemma canais_achados_app tr1 tr2 :
  canais_achados (tr1 ++ tr2) = canais_achados tr1 ++ canais_achados tr2.
Proof. unfold canais_achados. apply flat_map_app. Qed.

Lemma ordem_aninhada_contagem canais tr :
  ordem_aninhada canais tr ->
  length (List.filter busca_de_canais tr) = length canais /\
  length (List.filter busca_de_playlists tr) = length (canais_achados tr) /\
  (forallb limite_respeitado tr = true ->
   (length tr <= 4 * length canais)%nat).
Proof.
  induction 1 as [|canal canais resposta cs tr1 tr2 Hcs Hb Ho (IH1 & IH2 & IH3)].
  - repeat split. intros _. simpl. lia.
  - destruct (bloco_playlists_contagem _ _ Hb) as (Hl & Hp & Hc).
    assert (Hf1 : List.filter busca_de_canais (tr1 ++ tr2)
                  = List.filter busca_de_canais tr2).
    { rewrite List.filter_app, (filter_nenhum busca_de_canais tr1 Hp).
      reflexivity. }
    assert (Hf2 : List.filter busca_de_playlists (tr1 ++ tr2)
                  = tr1 ++ List.filter busca_de_playlists tr2).
    { rewrite List.filter_app, (filter_todos _ _ Hp). reflexivity. }
    split; [|split].
    + simpl. rewrite Hf1, IH1. reflexivity.
    + simpl. rewrite Hcs, Hf2, canais_achados_app, Hc, !length_app, IH2, Hl.
      reflexivity.
    + intros Hr. simpl in Hr. rewrite Hcs in Hr.
      apply andb_prop in Hr as [Hr1 Hr2].
      rewrite forallb_app in Hr2. apply andb_prop in Hr2 as [_ Hr2].
      apply Z.leb_le in Hr1. specialize (IH3 Hr2).
      simpl. rewrite length_app. lia.
Qed.

Section MoreClaims.
Context {U : Type} `{Upstream U}.

(** X2.  A completed collection for the seed names [canais], by either
    script, makes exactly one channel search per seed name and one playlist
    search per channel record those searches returned: at most
    [4 * length canais] searches in all when no answer holds more entries
    than were asked for. *)
Theorem contagem_das_buscas categoria canais (w : World U) :
  dict_get categoria SugerirPlaylists.categorias_canais = Some canais ->
  (forall l w',
     DailyUpdater.playlists_da_categoria canais w = (Val l, w') ->
     exists tr, trace w' = trace w ++ tr /\
       length (List.filter busca_de_canais tr) = length canais /\
       length (List.filter busca_de_playlists tr)
         = length (canais_achados tr) /\
       (forallb limite_respeitado tr = true ->
        (length tr <= 4 * length canais)%nat)) /\
  (forall l w',
     SugerirPlaylists.sugerir_playlists categoria w = (Val (PList l), w') ->
     exists tr, trace w' = trace w ++ tr /\
       length (List.filter busca_de_canais tr) = length canais /\
       length (List.filter busca_de_playlists tr)
         = length (canais_achados tr) /\
       (forallb limite_respeitado tr = true ->
        (length tr <= 4 * length canais)%nat)).
Proof.
  intros Hk. split; intros l w' E.
  - apply playlists_da_categoria_inv in E as (tr & _ & Ht & Ho & _).
    exists tr. split; [exact Ht|]. apply ordem_aninhada_contagem. exact Ho.
  - apply sugerir_playlists_inv in E
      as (canais' & tr & Hk' & _ & Ht & Ho & _).
    rewrite Hk in Hk'. inversion Hk'; subst canais'.
    exists tr. split; [exact Ht|]. apply ordem_aninhada_contagem. exact Ho.
Qed.

(** X3.  Whatever the category and whatever the outcome, a request to the
    endpoint writes no file, prints nothing and leaves the clock alone: it
    only searches. *)
Theorem sugerir_playlists_so_busca categoria (w : World U) r w' :
  SugerirPlaylists.sugerir_playlists categoria w = (r, w') ->
  files w' = files w /\ stdout w' = stdout w /\ clock w' = clock w.
Proof.
  intros E. destruct (sugerir_playlists_buscou _ _ _ _ E) as [(Hc & Hf & Hs) _].
  repeat split; assumption.
Qed.

End MoreClaims.

(** ** The endpoint's list inside the batch updater's *)

Lemma sem_repetidos_sublist rs : forall seen, sublist (sem_repetidos seen rs) rs.
Proof.
  induction rs as [|r rs IH]; intros seen; simpl.
  - constructor.
  - destruct (set_mem (link_de r) seen).
    + apply sublist_cons. apply IH.
    + apply sublist_skip. apply IH.
Qed.

Lemma set_mem_false v s :
  Forall (fun x => py_eqb v x = false) s -> set_mem v s = false.
Proof.
  unfold set_mem. induction 1 as [|x s Hx Hs IH]; simpl; [reflexivity|].
  rewrite Hx, IH. reflexivity.
Qed.

(** Nothing is removed from a list whose links differ from one another and
    from those already seen. *)
Lemma sem_repetidos_distintos rs : forall seen,
  distintos rs ->
  Forall (fun r => Forall (fun x => py_eqb (link_de r) x = false) seen) rs ->
  sem_repetidos seen rs = rs.
Proof.
  induction rs as [|r rs IH]; intros seen Hd Hs; [reflexivity|].
  destruct Hd as [Hr Hd]. inversion Hs as [|? ? Hs1 Hs2]; subst.
  simpl. rewrite (set_mem_false _ _ Hs1). f_equal. apply IH; [exact Hd|].
  rewrite Forall_forall in *. intros r' Hin.
  unfold set_add. apply Forall_app. split; [apply Hs2; exact Hin|].
  constructor; [|constructor]. rewrite py_eqb_sym. apply Hr. exact Hin.
Qed.

Lemma links_distintos_distintos rs : links_distintos rs -> distintos rs.
Proof.
  induction rs as [|r rs IH]; intros Hd; [exact I|]. split.
  - apply Forall_forall. intros r' Hin.
    apply list_elem_of_lookup in Hin as [j Hj].
    apply (Hd 0%nat (S j)); [discriminate | reflexivity | exact Hj].
  - apply IH. intros i j ri rj Hij Hi Hj.
    apply (Hd (S i) (S j)); [congruence | exact Hi | exact Hj].
Qed.

Section MoreClaims2.
Context {U : Type} `{Upstream U}.

(** The two scripts on the same world, for the same seed names. *)
Lemma lote_e_sugestao canais (w : World U) l w' l' seen w'' :
  DailyUpdater.playlists_da_categoria canais w = (Val l, w') ->
  SugerirPlaylists.para_cada_canal canais ([], []) w = (Val (l', seen), w'') ->
  l' = sem_repetidos [] l.
Proof.
  intros Eb Ee.
  apply playlists_da_categoria_busca in Eb as (itens & Hb & Hr).
  apply para_cada_canal_busca in Ee as (itens' & Hb' & Hp & _).
  rewrite Hb in Hb'. inversion Hb'; subst itens'.
  apply (primeiros_sem_repetidos _ _ _ Hp _ Hr).
Qed.

(** X4.  From the same world, the list the endpoint returns for a category
    is a subsequence of the list the batch updater collects for it: the
    endpoint adds no record and changes no order.  When the links of the
    batch updater's list differ from one another, the two lists are the
    same. *)
Theorem sugestao_dentro_do_lote categoria canais (w : World U) l w' l' w'' :
  dict_get categoria SugerirPlaylists.categorias_canais = Some canais ->
  DailyUpdater.playlists_da_categoria canais w = (Val l, w') ->
  SugerirPlaylists.sugerir_playlists categoria w = (Val (PList l'), w'') ->
  sublist l' l /\ (links_distintos l -> l' = l).
Proof.
  intros Hk Eb Ee. unfold SugerirPlaylists.sugerir_playlists in Ee.
  rewrite Hk in Ee. passo Ee as st w1 E1. apply ret_Val in Ee as [Ee ->].
  inversion Ee; subst l'. destruct st as [l' seen]. simpl.
  rewrite (lote_e_sugestao _ _ _ _ _ _ _ Eb E1). split.
  - apply sem_repetidos_sublist.
  - intros Hd. apply sem_repetidos_distintos.
    + apply links_distintos_distintos. exact Hd.
    + apply Forall_forall. intros r _. constructor.
Qed.

(** X5.  The file name only has the second of the clock in it, and the
    file is opened for writing: a batch run that starts from the files an
    earlier run left, at the same reading of the clock, replaces that run's
    document instead of adding a file. *)
Theorem atualizar_playlists_sobrescreve (w w1 v w2 : World U) :
  DailyUpdater.atualizar_playlists w = (Val tt, w1) ->
  DailyUpdater.atualizar_playlists v = (Val tt, w2) ->
  clock v = clock w -> files v = files w1 ->
  exists todas v1,
    por_categoria DailyUpdater.categorias_canais v todas v1 /\
    files w2 = <[DailyUpdater.nome_do_arquivo (strftime (clock w))
                   := PDict todas]> (files w).
Proof.
  intros E1 E2 Hc Hf.
  apply atualizar_playlists_desfecho in E1
    as (u1 & [(Hc1 & Hf1 & _) _] & [(e & He & _)|(todas1 & _ & _ & ->)]);
    [discriminate He|].
  apply atualizar_playlists_desfecho in E2
    as (u2 & [(Hc2 & Hf2 & _) _] & [(e & He & _)|(todas2 & _ & Hpc & ->)]);
    [discriminate He|].
  exists todas2, u2. split; [exact Hpc|].
  simpl in *. rewrite Hc2, Hf2, Hf, Hc, Hc1, Hf1.
  apply insert_insert_eq.
Qed.

(** ** When a collection completes *)

Lemma registros_ok itens :
  forallb registro_ok itens = true <-> exists rs, registros itens rs.
Proof.
  split.
  - induction itens as [|item itens IH]; intros Hok.
    + exists []. constructor.
    + simpl in Hok. apply andb_prop in Hok as [Hi Hok].
      destruct (IH Hok) as (rs & Hrs). unfold registro_ok in Hi.
      destruct (registro_de item) as [r|e] eqn:Er; [|discriminate Hi].
      exists (r :: rs). constructor; assumption.
  - intros (rs & Hrs). induction Hrs as [|item r itens rs Hr Hrs IH].
    + reflexivity.
    + simpl. rewrite IH. unfold registro_ok. rewrite Hr. reflexivity.
Qed.

Lemma primeiros_ok_iff itens : forall seen,
  primeiros_ok seen itens = true <-> exists l, primeiros seen itens l.
Proof.
  induction itens as [|[p nome] itens IH]; intros seen.
  - split; [intros _; exists []; constructor | reflexivity].
  - simpl. split.
    + destruct (getitem p "link") as [link|e] eqn:Hl; [|discriminate].
      intros Hok. apply andb_prop in Hok as [Hh Hok].
      destruct (set_mem link seen) eqn:Hm.
      * apply IH in Hok as (l & Hp). exists l.
        eapply primeiros_skip; eassumption.
      * apply andb_prop in Hok as [Hr Hok]. apply IH in Hok as (l & Hp).
        unfold registro_ok, registro_de in Hr. simpl in Hr.
        destruct (novo_registro p nome) as [r|e] eqn:Er; [|discriminate Hr].
        exists (r :: l). eapply primeiros_keep; eassumption.
    + intros (l & Hp). inversion Hp; subst.
      * match goal with Hl : getitem p "link" = Val ?k,
          Hh : hashable ?k = true, Hm : set_mem ?k seen = true |- _ =>
          rewrite Hl, Hh, Hm end.
        simpl. apply IH. eauto.
      * match goal with Hl : getitem p "link" = Val ?k,
          Hh : hashable ?k = true, Hm : set_mem ?k seen = false,
          Hr : novo_registro p nome = Val _ |- _ =>
          rewrite Hl, Hh, Hm; unfold registro_ok, registro_de; simpl;
          rewrite Hr end.
        simpl. apply IH. eauto.
Qed.

(** X6.  The batch updater's collection completes exactly when the lookup
    completes and every playlist visited yields a record.  The endpoint's
    completes exactly when the lookup completes, every playlist visited has
    a hashable link, and those whose link was not seen before yield a
    record: a playlist that repeats a link is not looked at any further. *)
Theorem quando_a_coleta_completa categoria canais (w w' : World U) :
  dict_get categoria SugerirPlaylists.categorias_canais = Some canais ->
  ((exists l, DailyUpdater.playlists_da_categoria canais w = (Val l, w')) <->
   (exists itens, busca canais w = (Val itens, w') /\
                  forallb registro_ok itens = true)) /\
  ((exists l, SugerirPlaylists.sugerir_playlists categoria w
              = (Val (PList l), w')) <->
   (exists itens, busca canais w = (Val itens, w') /\
                  primeiros_ok [] itens = true)).
Proof.
  intros Hk. split; split.
  - intros (l & E). apply playlists_da_categoria_busca in E as (itens & Hb & Hr).
    exists itens. split; [exact Hb|]. apply registros_ok. eauto.
  - intros (itens & Hb & Hok). apply registros_ok in Hok as (rs & Hrs).
    exists rs. apply playlists_da_categoria_busca. eauto.
  - intros (l & E). apply sugerir_playlists_inv in E
      as (canais' & tr & Hk' & Hb & _ & _ & Hp).
    rewrite Hk in Hk'. inversion Hk'; subst canais'.
    exists (visitados tr). split; [exact Hb|]. apply primeiros_ok_iff. eauto.
  - intros (itens & Hb & Hok). apply primeiros_ok_iff in Hok as (l & Hp).
    exists l. unfold SugerirPlaylists.sugerir_playlists. rewrite Hk.
    erewrite bind_run; cycle 1.
    { apply para_cada_canal_busca. exists itens.
      split; [exact Hb | split; [exact Hp | reflexivity]]. }
    reflexivity.
Qed.

(** X7.  The endpoint's loops only append to the list, and the set of seen
    links stays the set of the links of the list: started with the links
    of the records it has, the loop over the seed names ends with the
    links of the records it has then. *)
Theorem seen_links_acompanha canais acc (w : World U) acc' seen' w' :
  SugerirPlaylists.para_cada_canal canais (acc, map link_de acc) w
    = (Val (acc', seen'), w') ->
  seen' = map link_de acc' /\ exists l, acc' = acc ++ l.
Proof.
  intros E. apply (sp_para_cada_canal_Val _ _ _ _ _ _ []) in E
    as (itens & l & _ & _ & Hst).
  inversion Hst; subst. split; [|eauto].
  rewrite map_app. reflexivity.
Qed.

End MoreClaims2.

(** ** Seed names that lead to no channel *)

Section SemCanais.
Context {U : Type} `{Upstream U}.
Hypothesis Hvazio : sem_canais U.

Lemma busca_desde_sem_canais canais : forall itens (w : World U),
  exists w' tr,
    busca_desde canais itens w = (Val itens, w') /\
    trace w' = trace w ++ tr /\ length tr = length canais /\
    forallb busca_de_canais tr = true.
Proof using Hvazio.
  induction canais as [|canal canais IH]; intros itens w.
  - exists w, []. rewrite app_nil_r. repeat split.
  - destruct (Hvazio (PStr canal) 3 (upstream w)) as (resposta & u & Hs & Hr).
    set (w1 := mkWorld u (trace w ++ [EvChannels (PStr canal) 3 (Val resposta)])
                       (clock w) (files w) (stdout w)).
    destruct (IH itens w1) as (w' & tr & Hb & Ht & Hl & Hc).
    exists w', (EvChannels (PStr canal) 3 (Val resposta) :: tr).
    split; [|split; [|split]].
    + unfold busca_desde. rewrite for_each_cons.
      fold (busca_desde (U:=U) canais).
      erewrite bind_run; [exact Hb|].
      erewrite bind_run; cycle 1.
      { unfold ChannelsSearch. rewrite Hs. reflexivity. }
      erewrite bind_run; [|unfold lift; f_equal; exact Hr].
      reflexivity.
    + rewrite Ht. simpl. rewrite <- app_assoc. reflexivity.
    + simpl. rewrite Hl. reflexivity.
    + simpl. exact Hc.
Qed.

Lemma playlists_da_categoria_sem_canais canais (w : World U) :
  exists w', DailyUpdater.playlists_da_categoria canais w = (Val [], w').
Proof using Hvazio.
  destruct (busca_desde_sem_canais canais [] w) as (w' & tr & Hb & _).
  exists w'. apply playlists_da_categoria_busca. exists [].
  split; [exact Hb | constructor].
Qed.

(** X8.  On a platform where no channel search finds anything, no
    playlist is ever searched for: the endpoint answers a category of the
    mapping with the empty list after one channel search per seed name,
    and the batch updater completes and stores the empty list under each
    of the two categories. *)
Theorem sem_canais_listas_vazias (w : World U) :
  (forall categoria canais,
     dict_get categoria SugerirPlaylists.categorias_canais = Some canais ->
     exists w' tr,
       SugerirPlaylists.sugerir_playlists categoria w = (Val (PList []), w') /\
       trace w' = trace w ++ tr /\ length tr = length canais /\
       forallb busca_de_canais tr = true) /\
  (exists w',
     DailyUpdater.atualizar_playlists w = (Val tt, w') /\
     files w' !! DailyUpdater.nome_do_arquivo (strftime (clock w))
     = Some (PDict [ ("Inteligência Artificial", PList []);
                     ("Marketing Digital", PList []) ])).
Proof using Hvazio.
  split.
  - intros categoria canais Hk.
    destruct (busca_desde_sem_canais canais [] w) as (w' & tr & Hb & Ht & Hl & Hc).
    exists w', tr. split; [|repeat split; assumption].
    unfold SugerirPlaylists.sugerir_playlists. rewrite Hk.
    erewrite bind_run; cycle 1.
    { apply para_cada_canal_busca. exists [].
      split; [exact Hb | split; [constructor | reflexivity]]. }
    reflexivity.
  - destruct (playlists_da_categoria_sem_canais ["Canal AI"; "AI News"] w)
      as (w1 & E1).
    destruct (playlists_da_categoria_sem_canais
                ["Marketing Total"; "Growth Hacker"] w1) as (w2 & E2).
    assert (Hc : clock w2 = clock w).
    { destruct (playlists_da_categoria_buscou _ _ _ _ E1) as [(Hc1 & _) _].
      destruct (playlists_da_categoria_buscou _ _ _ _ E2) as [(Hc2 & _) _].
      congruence. }
    eexists. split.
    + unfold DailyUpdater.atualizar_playlists,
        DailyUpdater.para_cada_categoria, DailyUpdater.categorias_canais.
      rewrite for_each_cons.
      erewrite bind_run; cycle 1.
      { erewrite bind_run; cycle 1.
        { erewrite bind_run; [|exact E1]. reflexivity. }
        rewrite for_each_cons.
        erewrite bind_run; cycle 1.
        { erewrite bind_run; [|exact E2]. reflexivity. }
        reflexivity. }
      reflexivity.
    + simpl. rewrite Hc. apply lookup_insert_eq.
Qed.

End SemCanais.

(** ** The searches of a whole batch run *)

Lemma ordem_aninhada_app canais1 tr1 canais2 tr2 :
  ordem_aninhada canais1 tr1 -> ordem_aninhada canais2 tr2 ->
  ordem_aninhada (canais1 ++ canais2) (tr1 ++ tr2).
Proof.
  induction 1 as [|canal canais resposta cs ta tb Hcs Hb Ho IH]; intros H2.
  - exact H2.
  - simpl. rewrite <- app_assoc. econstructor; [exact Hcs | exact Hb |].
    apply IH. exact H2.
Qed.

Section WholeBatch.
Context {U : Type} `{Upstream U}.

Lemma por_categoria_ordem mapping (w : World U) todas w' :
  por_categoria mapping w todas w' ->
  exists tr, trace w' = trace w ++ tr /\
    ordem_aninhada (flat_map snd mapping) tr.
Proof.
  induction 1 as [w|categoria canais mapping w l w1 todas w2 El Hpc IH].
  - exists []. rewrite app_nil_r. split; [reflexivity | constructor].
  - apply playlists_da_categoria_inv in El as (tr1 & _ & Ht1 & Ho1 & _).
    destruct IH as (tr2 & Ht2 & Ho2).
    exists (tr1 ++ tr2). split.
    + rewrite Ht2, Ht1, app_assoc. reflexivity.
    + simpl. apply ordem_aninhada_app; assumption.
Qed.

(** X9.  A completed run of the batch updater searches for the four seed
    names of the mapping in the order they are written, category after
    category, each followed by the playlist searches for the channels it
    found; when no answer holds more entries than were asked for, that is
    at most 16 searches. *)
Theorem buscas_de_uma_atualizacao (w : World U) w' :
  DailyUpdater.atualizar_playlists w = (Val tt, w') ->
  exists tr, trace w' = trace w ++ tr /\
    ordem_aninhada
      ["Canal AI"; "AI News"; "Marketing Total"; "Growth Hacker"] tr /\
    length (List.filter busca_de_canais tr) = 4%nat /\
    (forallb limite_respeitado tr = true -> (length tr <= 16)%nat).
Proof.
  intros E. apply atualizar_playlists_desfecho in E
    as (w1 & _ & [(e & He & _)|(todas & _ & Hpc & ->)]); [discriminate He|].
  apply por_categoria_ordem in Hpc as (tr & Ht & Ho). simpl in Ho.
  exists tr. split; [exact Ht|]. split; [exact Ho|].
  destruct (ordem_aninhada_contagem _ _ Ho) as (Hn & _ & Hl).
  split; [exact Hn | exact Hl].
Qed.

End WholeBatch.

Lemma buscas_de_uma_atualizacao_exemplo :
  DailyUpdater.atualizar_playlists (mundo tt) = (Val tt, mundo_atualizado) /\
  exists tr, trace mundo_atualizado = trace (mundo tt) ++ tr /\
    ordem_aninhada
      ["Canal AI"; "AI News"; "Marketing Total"; "Growth Hacker"] tr /\
    length (List.filter busca_de_canais tr) = 4%nat /\
    (forallb limite_respeitado tr = true -> (length tr <= 16)%nat).
Proof.
  assert (E : DailyUpdater.atualizar_playlists (mundo tt)
              = (Val tt, mundo_atualizado)) by (vm_compute; reflexivity).
  split; [exact E|].
  exact (buscas_de_uma_atualizacao _ _ E).
Defined.

(** ** The further properties at work on example runs *)

Lemma falha_de_busca_encerra_exemplo :
  SugerirPlaylists.sugerir_playlists "Marketing Digital"
    (mundo roteiro_com_falha)
    = (Raise (OtherError "timeout"), mundo_apos_falha) /\
  exists tr, trace mundo_apos_falha = trace (mundo roteiro_com_falha) ++ tr /\
    encerra tr (Some (OtherError "timeout")).
Proof.
  assert (E : SugerirPlaylists.sugerir_playlists "Marketing Digital"
                (mundo roteiro_com_falha)
              = (Raise (OtherError "timeout"), mundo_apos_falha))
    by (vm_compute; reflexivity).
  split; [exact E|].
  exact (proj2 (falha_de_busca_encerra "Marketing Digital"
                  (mundo roteiro_com_falha)) _ _ E).
Defined.

(** Two searches were made; the second one raised. *)
Example falha_na_segunda_busca :
  map respondida (trace mundo_apos_falha) = [true; false].
Proof. reflexivity. Qed.

Lemma contagem_das_buscas_exemplo :
  dict_get "Marketing Digital" SugerirPlaylists.categorias_canais
    = Some ["Marketing Total"; "Growth Hacker"] /\
  exists tr, trace mundo_buscado = trace (mundo tt) ++ tr /\
    length (List.filter busca_de_canais tr) = 2%nat /\
    length (List.filter busca_de_playlists tr) = length (canais_achados tr) /\
    (forallb limite_respeitado tr = true -> (length tr <= 4 * 2)%nat).
Proof.
  assert (Hk : dict_get "Marketing Digital" SugerirPlaylists.categorias_canais
               = Some ["Marketing Total"; "Growth Hacker"]) by reflexivity.
  split; [exact Hk|].
  apply (proj2 (contagem_das_buscas _ _ (mundo tt) Hk) sugestao_fixo).
  vm_compute. reflexivity.
Defined.

Lemma sugerir_playlists_so_busca_exemplo :
  SugerirPlaylists.sugerir_playlists "Marketing Digital" (mundo tt)
    = (Val (PList sugestao_fixo), mundo_buscado) /\
  files mundo_buscado = files (mundo tt) /\
  stdout mundo_buscado = stdout (mundo tt) /\
  clock mundo_buscado = clock (mundo tt).
Proof.
  assert (E : SugerirPlaylists.sugerir_playlists "Marketing Digital" (mundo tt)
              = (Val (PList sugestao_fixo), mundo_buscado))
    by (vm_compute; reflexivity).
  split; [exact E|].
  exact (sugerir_playlists_so_busca _ _ _ _ E).
Defined.

Lemma sugestao_dentro_do_lote_exemplo :
  dict_get "Marketing Digital" SugerirPlaylists.categorias_canais
    = Some ["Marketing Total"; "Growth Hacker"] /\
  DailyUpdater.playlists_da_categoria ["Marketing Total"; "Growth Hacker"]
    (mundo tt) = (Val lote_fixo, mundo_buscado) /\
  SugerirPlaylists.sugerir_playlists "Marketing Digital" (mundo tt)
    = (Val (PList sugestao_fixo), mundo_buscado) /\
  sublist sugestao_fixo lote_fixo /\
  (links_distintos lote_fixo -> sugestao_fixo = lote_fixo).
Proof.
  assert (Hk : dict_get "Marketing Digital" SugerirPlaylists.categorias_canais
               = Some ["Marketing Total"; "Growth Hacker"]) by reflexivity.
  assert (Eb : DailyUpdater.playlists_da_categoria
                 ["Marketing Total"; "Growth Hacker"] (mundo tt)
               = (Val lote_fixo, mundo_buscado)) by (vm_compute; reflexivity).
  assert (Ee : SugerirPlaylists.sugerir_playlists "Marketing Digital"
                 (mundo tt) = (Val (PList sugestao_fixo), mundo_buscado))
    by (vm_compute; reflexivity).
  split; [exact Hk|]. split; [exact Eb|]. split; [exact Ee|].
  exact (sugestao_dentro_do_lote _ _ _ _ _ _ _ Hk Eb Ee).
Defined.

Lemma atualizar_playlists_sobrescreve_exemplo :
  DailyUpdater.atualizar_playlists (mundo tt) = (Val tt, mundo_atualizado) /\
  DailyUpdater.atualizar_playlists mundo_atualizado
    = (Val tt, mundo_atualizado_de_novo) /\
  clock mundo_atualizado = clock (mundo tt) /\
  files mundo_atualizado = files mundo_atualizado /\
  exists todas v1,
    por_categoria DailyUpdater.categorias_canais mundo_atualizado todas v1 /\
    files mundo_atualizado_de_novo
    = <[DailyUpdater.nome_do_arquivo (strftime (clock (mundo tt)))
          := PDict todas]> (files (mundo tt)).
Proof.
  assert (E1 : DailyUpdater.atualizar_playlists (mundo tt)
               = (Val tt, mundo_atualizado)) by (vm_compute; reflexivity).
  assert (E2 : DailyUpdater.atualizar_playlists mundo_atualizado
               = (Val tt, mundo_atualizado_de_novo))
    by (vm_compute; reflexivity).
  split; [exact E1|]. split; [exact E2|].
  split; [reflexivity|]. split; [reflexivity|].
  exact (atualizar_playlists_sobrescreve _ _ _ _ E1 E2 eq_refl eq_refl).
Defined.

(** After the two runs there is one file, not two. *)
Example um_arquivo_apos_duas_execucoes :
  size (files mundo_atualizado_de_novo) = 1%nat.
Proof. vm_compute. reflexivity. Qed.

Lemma quando_a_coleta_completa_exemplo :
  dict_get "Marketing Digital" SugerirPlaylists.categorias_canais
    = Some ["Marketing Total"; "Growth Hacker"] /\
  exists l,
    SugerirPlaylists.sugerir_playlists "Marketing Digital"
      (mundo roteiro_repetido_incompleto)
    = (Val (PList l), mundo_repetido_buscado).
Proof.
  assert (Hk : dict_get "Marketing Digital" SugerirPlaylists.categorias_canais
               = Some ["Marketing Total"; "Growth Hacker"]) by reflexivity.
  split; [exact Hk|].
  apply (proj2 (quando_a_coleta_completa _ _
                  (mundo roteiro_repetido_incompleto) mundo_repetido_buscado
                  Hk)).
  eexists. split; vm_compute; reflexivity.
Defined.

(** The playlist that repeats a link has no title and no thumbnails: the
    endpoint returns the one record, the batch updater ends in KeyError. *)
Example repetido_incompleto :
  fst (SugerirPlaylists.sugerir_playlists "Marketing Digital"
         (mundo roteiro_repetido_incompleto))
  = Val (PList [PDict [ ("titulo", PStr "Curso");
                        ("link", PStr "https://yt/pl1");
                        ("thumbnail", PStr "https://img/1.jpg");
                        ("canal", PStr "Canal X") ]]) /\
  fst (DailyUpdater.atualizar_playlists (mundo roteiro_repetido_incompleto))
  = Raise (KeyError (PStr "title")).
Proof. split; vm_compute; reflexivity. Qed.

Lemma seen_links_acompanha_exemplo :
  SugerirPlaylists.para_cada_canal ["Marketing Total"; "Growth Hacker"]
    ([], map link_de []) (mundo tt)
    = (Val (sugestao_fixo,
            [PStr "https://yt/pl1"; PStr "https://yt/pl2"]), mundo_buscado) /\
  [PStr "https://yt/pl1"; PStr "https://yt/pl2"] = map link_de sugestao_fixo /\
  exists l, sugestao_fixo = [] ++ l.
Proof.
  assert (E : SugerirPlaylists.para_cada_canal
                ["Marketing Total"; "Growth Hacker"]
                ([], map link_de []) (mundo tt)
              = (Val (sugestao_fixo,
                      [PStr "https://yt/pl1"; PStr "https://yt/pl2"]),
                 mundo_buscado)) by (vm_compute; reflexivity).
  split; [exact E|].
  exact (seen_links_acompanha _ _ _ _ _ _ E).
Defined.

Lemma deserto_sem_canais : sem_canais nat.
Proof. intros q n u. eexists _, _. split; reflexivity. Qed.

Lemma sem_canais_listas_vazias_exemplo :
  sem_canais nat /\
  exists w',
    DailyUpdater.atualizar_playlists (mundo 0%nat) = (Val tt, w') /\
    files w' !! DailyUpdater.nome_do_arquivo
                  (strftime (clock (mundo 0%nat)))
    = Some (PDict [ ("Inteligência Artificial", PList []);
                    ("Marketing Digital", PList []) ]).
Proof.
  split; [exact deserto_sem_canais|].
  exact (proj2 (sem_canais_listas_vazias deserto_sem_canais (mundo 0%nat))).
Defined.

(** The batch updater made its four channel searches and no other. *)
Example deserto_quatro_buscas :
  upstream mundo_deserto_atualizado = 4%nat /\
  map busca_de_canais (trace mundo_deserto_atualizado)
  = [true; true; true; true].
Proof. split; reflexivity. Qed.

(** * The document of a batch run, and its only effect *)

Section Documento.
Context {U : Type} `{Upstream U}.

Lemma por_categoria_agrupado mapping (w : World U) todas w' :
  por_categoria mapping w todas w' ->
  exists tr, trace w' = trace w ++ tr /\ agrupado mapping tr todas.
Proof.
  induction 1 as [w|categoria canais mapping w l w1 todas w2 El Hpc IH].
  - exists []. rewrite app_nil_r. split; [reflexivity | constructor].
  - apply playlists_da_categoria_inv in El as (tr1 & _ & Ht1 & Ho1 & Hr1).
    destruct IH as (tr2 & Ht2 & Ha2).
    exists (tr1 ++ tr2). split.
    + rewrite Ht2, Ht1, app_assoc. reflexivity.
    + constructor; assumption.
Qed.

Lemma agrupado_keys mapping tr todas :
  agrupado mapping tr todas -> dict_keys todas = dict_keys mapping.
Proof. induction 1; simpl; [reflexivity | f_equal; assumption]. Qed.

(** C5.  A completed run of the batch updater stores, in its file, a JSON
    object grouped by category: its keys are the keys of the mapping, in
    the mapping's order, with none left out, and under each key is the
    list of the records of the playlists that the searches for that
    category's seed names visited, one record for each, in the order
    visited (the empty list when they visited none). *)
Theorem atualizar_playlists_agrupa (w : World U) w' :
  DailyUpdater.atualizar_playlists w = (Val tt, w') ->
  exists tr todas,
    trace w' = trace w ++ tr /\
    agrupado DailyUpdater.categorias_canais tr todas /\
    dict_keys todas = dict_keys DailyUpdater.categorias_canais /\
    files w' !! DailyUpdater.nome_do_arquivo (strftime (clock w))
      = Some (PDict todas).
Proof.
  intros E. apply atualizar_playlists_desfecho in E
    as (w1 & [(Hc & _) _] & [(e & He & _)|(todas & _ & Hpc & ->)]).
  - discriminate He.
  - apply por_categoria_agrupado in Hpc as (tr & Ht & Ha).
    exists tr, todas. split; [exact Ht|]. split; [exact Ha|]. split.
    + eapply agrupado_keys. exact Ha.
    + simpl. rewrite Hc. apply lookup_insert_eq.
Qed.

End Documento.

Lemma atualizar_playlists_agrupa_exemplo :
  DailyUpdater.atualizar_playlists (mundo tt) = (Val tt, mundo_atualizado) /\
  exists tr todas,
    trace mundo_atualizado = trace (mundo tt) ++ tr /\
    agrupado DailyUpdater.categorias_canais tr todas /\
    dict_keys todas = dict_keys DailyUpdater.categorias_canais /\
    files mundo_atualizado
      !! DailyUpdater.nome_do_arquivo (strftime (clock (mundo tt)))
      = Some (PDict todas).
Proof.
  assert (E : DailyUpdater.atualizar_playlists (mundo tt)
              = (Val tt, mundo_atualizado)) by (vm_compute; reflexivity).
  split; [exact E|].
  exact (atualizar_playlists_agrupa _ _ E).
Defined.

(** On that run eight playlists were visited, four for each category, and
    each category holds its four records. *)
Example documento_de_fixo :
  length (visitados (trace mundo_atualizado)) = 8%nat /\
  files mundo_atualizado !! "playlists_2024-05-07_09-03-41.json"
  = Some (PDict [ ("Inteligência Artificial", PList lote_fixo);
                  ("Marketing Digital", PList lote_fixo) ]) /\
  length lote_fixo = 4%nat.
Proof. repeat split; vm_compute; reflexivity. Qed.

(** ** Objects against values *)

Lemma bindo_run {U A B} (m : MO U A) (k : A -> MO U B) s a s1 :
  m s = (Val a, s1) -> bindo m k s = k a s1.
Proof. unfold bindo. intros ->. reflexivity. Qed.

Lemma bindo_raise {U A B} (m : MO U A) (k : A -> MO U B) s e s1 :
  m s = (Raise e, s1) -> bindo m k s = (Raise e, s1).
Proof. unfold bindo. intros ->. reflexivity. Qed.

Lemma para_cada_cons {U A} (x : A) (xs : list A) (body : A -> MO U unit) :
  para_cada (x :: xs) body = bindo (body x) (fun _ => para_cada xs body).
Proof. reflexivity. Qed.

Lemma com_lista_id {U} (s : Estado U) l xs w :
  objetos s !! l = Some (OLista xs) ->
  mkEstado w (objetos s) (incompletos s) = com_lista s l xs w.
Proof.
  intros Hl. unfold com_lista. rewrite (list_insert_id _ _ _ Hl). reflexivity.
Qed.

Lemma com_lista_mesmo {U} (s : Estado U) l xs :
  objetos s !! l = Some (OLista xs) -> com_lista s l xs (exterior s) = s.
Proof.
  intros Hl. destruct s as [w σ inc]. unfold com_lista. simpl in *.
  rewrite (list_insert_id _ _ _ Hl). reflexivity.
Qed.

Lemma com_lista_de_novo {U} (s : Estado U) l xs ys w1 w2 :
  com_lista (com_lista s l xs w1) l ys w2 = com_lista s l ys w2.
Proof. unfold com_lista. simpl. rewrite list_insert_insert_eq. reflexivity. Qed.

Lemma com_lista_lookup {U} (s : Estado U) l xs ys w :
  objetos s !! l = Some (OLista xs) ->
  objetos (com_lista s l ys w) !! l = Some (OLista ys).
Proof.
  intros Hl. simpl. apply list_lookup_insert_eq.
  eapply lookup_lt_Some. exact Hl.
Qed.

Lemma append_run {U} (s : Estado U) l xs x :
  objetos s !! l = Some (OLista xs) ->
  append l x s = (Val tt, com_lista s l (xs ++ [x]) (exterior s)).
Proof.
  intros Hl. unfold append, bindo, ler. rewrite Hl. reflexivity.
Qed.

Section Simulacao.
Context {U : Type} `{Upstream U}.

(** The innermost loop: what the values say is appended is what the list
    object holds. *)
Lemma sim_para_cada_playlist nome ps : forall acc (s : Estado U) P r w',
  objetos s !! P = Some (OLista acc) ->
  DailyUpdater.para_cada_playlist nome ps acc (exterior s) = (r, w') ->
  exists accf,
    DailyUpdaterObjetos.para_cada_playlist P nome ps s
      = (sem_valor r, com_lista s P accf w') /\
    forall acc', r = Val acc' -> accf = acc'.
Proof.
  induction ps as [|p ps IH]; intros acc s P r w' HP E.
  - inversion E; subst. exists acc. split.
    + simpl. unfold reto. rewrite com_lista_mesmo by exact HP. reflexivity.
    + intros acc' E'. inversion E'. reflexivity.
  - unfold DailyUpdater.para_cada_playlist in E. rewrite for_each_cons in E.
    fold (DailyUpdater.para_cada_playlist (U:=U) nome ps) in E.
    unfold DailyUpdaterObjetos.para_cada_playlist. rewrite para_cada_cons.
    fold (DailyUpdaterObjetos.para_cada_playlist (U:=U) P nome ps).
    destruct (novo_registro p nome) as [r0|e] eqn:Er.
    + rewrite (bind_run _ _ _ (acc ++ [r0]) (exterior s)) in E
        by reflexivity.
      erewrite bindo_run; cycle 1.
      { erewrite bindo_run; [|reflexivity].
        apply append_run. exact HP. }
      destruct (IH (acc ++ [r0]) (com_lista s P (acc ++ [r0]) (exterior s))
                   P r w' (com_lista_lookup _ _ _ _ _ HP) E)
        as (accf & Hrun & Hval).
      exists accf. rewrite com_lista_de_novo in Hrun. split; assumption.
    + rewrite (bind_raise _ _ _ e (exterior s)) in E
        by reflexivity.
      inversion E; subst. exists acc. split.
      * erewrite bindo_raise;
          [|erewrite bindo_raise; [reflexivity | reflexivity]].
        simpl. rewrite com_lista_mesmo by exact HP. reflexivity.
      * intros acc' E'. discriminate E'.
Qed.

(** A loop over objects follows a loop over values when its body does. *)
Lemma sim_para_cada {A} (xs : list A)
  (corpo : A -> list pyval -> M U (list pyval)) (corpo_o : A -> MO U unit) P :
  (forall x acc (s : Estado U) r w',
     objetos s !! P = Some (OLista acc) ->
     corpo x acc (exterior s) = (r, w') ->
     exists accf,
       corpo_o x s = (sem_valor r, com_lista s P accf w') /\
       forall acc', r = Val acc' -> accf = acc') ->
  forall acc (s : Estado U) r w',
    objetos s !! P = Some (OLista acc) ->
    for_each xs corpo acc (exterior s) = (r, w') ->
    exists accf,
      para_cada xs corpo_o s = (sem_valor r, com_lista s P accf w') /\
      forall acc', r = Val acc' -> accf = acc'.
Proof.
  intros Hcorpo. induction xs as [|x xs IH]; intros acc s r w' HP E.
  - inversion E; subst. exists acc. split.
    + simpl. unfold reto. rewrite com_lista_mesmo by exact HP. reflexivity.
    + intros acc' E'. inversion E'. reflexivity.
  - rewrite for_each_cons in E. rewrite para_cada_cons.
    destruct (corpo x acc (exterior s)) as [[acc1|e] w1] eqn:Ec.
    + rewrite (bind_run _ _ _ _ _ Ec) in E.
      destruct (Hcorpo _ _ _ _ _ HP Ec) as (accb & Hrun & Hval).
      rewrite (Hval acc1 eq_refl) in Hrun. simpl in Hrun.
      rewrite (bindo_run _ _ _ _ _ Hrun).
      destruct (IH acc1 (com_lista s P acc1 w1) r w'
                   (com_lista_lookup _ _ _ _ _ HP) E) as (accf & Hrun' & Hval').
      exists accf. rewrite com_lista_de_novo in Hrun'. split; assumption.
    + rewrite (bind_raise _ _ _ _ _ Ec) in E. inversion E; subst.
      destruct (Hcorpo _ _ _ _ _ HP Ec) as (accb & Hrun & _).
      simpl in Hrun. rewrite (bindo_raise _ _ _ _ _ Hrun).
      exists accb. split; [reflexivity|]. intros acc' E'. discriminate E'.
Qed.

Lemma sim_para_cada_canal_encontrado cs : forall acc (s : Estado U) P r w',
  objetos s !! P = Some (OLista acc) ->
  DailyUpdater.para_cada_canal_encontrado cs acc (exterior s) = (r, w') ->
  exists accf,
    DailyUpdaterObjetos.para_cada_canal_encontrado P cs s
      = (sem_valor r, com_lista s P accf w') /\
    forall acc', r = Val acc' -> accf = acc'.
Proof.
  intros acc s P r w' HP E.
  unfold DailyUpdater.para_cada_canal_encontrado in E.
  unfold DailyUpdaterObjetos.para_cada_canal_encontrado.
  revert acc s r w' HP E. apply sim_para_cada.
  intros c acc s r w' HP E.
  assert (Hfalha : forall e w1,
    exists accf,
      (Raise e, mkEstado w1 (objetos s) (incompletos s))
        = (sem_valor (@Raise (list pyval) e), com_lista s P accf w1) /\
      forall acc', @Raise (list pyval) e = Val acc' -> accf = acc').
  { intros e w1. exists acc. split.
    - simpl. rewrite (com_lista_id s P acc w1 HP). reflexivity.
    - intros acc' E'. discriminate E'. }
  unfold bind, lift in E. unfold bindo, puro, no_mundo.
  destruct (getitem c "title") as [nome|e].
  2:{ inversion E; subst. destruct s. apply Hfalha. }
  destruct (PlaylistsSearch nome 5 (exterior s)) as [[resposta|e] w1].
  2:{ inversion E; subst. apply Hfalha. }
  simpl. destruct (getitem resposta "result") as [playlists|e].
  2:{ inversion E; subst. apply Hfalha. }
  destruct (iter playlists) as [ps|e].
  2:{ inversion E; subst. apply Hfalha. }
  apply (sim_para_cada_playlist nome ps acc
           (mkEstado w1 (objetos s) (incompletos s)) P r w' HP E).
Qed.

Lemma para_cada_map {A B} (f : A -> B) xs (corpo : B -> MO U unit) :
  para_cada (map f xs) corpo = para_cada xs (fun x => corpo (f x)).
Proof.
  induction xs as [|x xs IH]; [reflexivity|].
  simpl. rewrite IH. reflexivity.
Qed.

Lemma sim_para_cada_canal canais : forall acc (s : Estado U) P r w',
  objetos s !! P = Some (OLista acc) ->
  DailyUpdater.para_cada_canal canais acc (exterior s) = (r, w') ->
  exists accf,
    DailyUpdaterObjetos.para_cada_canal P (map PStr canais) s
      = (sem_valor r, com_lista s P accf w') /\
    forall acc', r = Val acc' -> accf = acc'.
Proof.
  intros acc s P r w' HP E.
  unfold DailyUpdater.para_cada_canal in E.
  unfold DailyUpdaterObjetos.para_cada_canal. rewrite para_cada_map.
  revert acc s r w' HP E. apply sim_para_cada.
  intros canal acc s r w' HP E.
  assert (Hfalha : forall e w1,
    exists accf,
      (Raise e, mkEstado w1 (objetos s) (incompletos s))
        = (sem_valor (@Raise (list pyval) e), com_lista s P accf w1) /\
      forall acc', @Raise (list pyval) e = Val acc' -> accf = acc').
  { intros e w1. exists acc. split.
    - simpl. rewrite (com_lista_id s P acc w1 HP). reflexivity.
    - intros acc' E'. discriminate E'. }
  unfold bind, lift in E. unfold bindo, puro, no_mundo.
  destruct (ChannelsSearch (PStr canal) 3 (exterior s)) as [[resposta|e] w1].
  2:{ inversion E; subst. apply Hfalha. }
  simpl. destruct (getitem resposta "result") as [encontrados|e].
  2:{ inversion E; subst. apply Hfalha. }
  destruct (iter encontrados) as [cs|e].
  2:{ inversion E; subst. apply Hfalha. }
  apply (sim_para_cada_canal_encontrado cs acc
           (mkEstado w1 (objetos s) (incompletos s)) P r w' HP E).
Qed.

End Simulacao.

(** ** The loop over the categories, on objects *)

Lemma guarda_mais n k k2 entradas todas :
  guarda n k entradas todas -> guarda n (k ++ k2) entradas todas.
Proof.
  unfold guarda. intros Hg. eapply Forall2_impl; [exact Hg|].
  simpl. intros e t (Hk & i & l & He & Hi & Ht).
  split; [exact Hk|]. exists i, l. repeat split; try assumption.
  apply lookup_app_l_Some. exact Hi.
Qed.

(** An assignment to a key keeps the dict of lists in step. *)
Lemma guarda_dict_set n k entradas todas categoria i l :
  guarda n k entradas todas -> k !! i = Some (OLista l) ->
  guarda n k (dict_set categoria (n + 1 + i)%nat entradas)
             (dict_set categoria (PList l) todas).
Proof.
  intros Hg Hi. induction Hg as [|e t entradas todas (Hk & He) Hg IH].
  - simpl. constructor; [|constructor]. split; [reflexivity|].
    exists i, l. repeat split. exact Hi.
  - destruct e as [ke ve], t as [kt vt]. simpl in Hk. subst kt. simpl.
    destruct (String.eqb categoria ke).
    + constructor; [|exact Hg]. split; [reflexivity|].
      exists i, l. repeat split. exact Hi.
    + constructor; [|exact IH]. split; [reflexivity | exact He].
Qed.

Lemma congelar_entradas_guarda n σ0 k dT entradas todas :
  length σ0 = n -> guarda n k entradas todas ->
  congelar_entradas
    (congelar (S (n + length k)) (σ0 ++ ODict dT :: k)) entradas
  = Some todas.
Proof.
  intros Hn Hg. induction Hg as [|e t entradas todas (Hk & He) Hg IH].
  - reflexivity.
  - destruct e as [ke ve], t as [kt vt]. simpl in Hk, He. subst kt.
    destruct He as (i & l & -> & Hi & ->).
    cbn [congelar_entradas]. rewrite IH.
    cbn [congelar].
    replace ((σ0 ++ ODict dT :: k) !! (n + 1 + i)%nat)
      with (Some (OLista l)); [reflexivity|].
    symmetry. rewrite <- Hn.
    replace (length σ0 + 1 + i)%nat with (length σ0 + S i)%nat by lia.
    rewrite lookup_app_r by lia.
    replace (length σ0 + S i - length σ0)%nat with (S i) by lia.
    exact Hi.
Qed.

(** The document [json.dump] makes of such a dict. *)
Lemma congelar_guarda σ0 k dT todas :
  guarda (length σ0) k dT todas ->
  congelar (S (length (σ0 ++ ODict dT :: k))) (σ0 ++ ODict dT :: k)
           (length σ0)
  = Some (PDict todas).
Proof.
  intros Hg. cbn [congelar]. rewrite list_lookup_middle by reflexivity.
  replace (length (σ0 ++ ODict dT :: k)) with (S (length σ0 + length k))
    by (rewrite length_app; simpl; lia).
  rewrite (congelar_entradas_guarda (length σ0) σ0 k dT dT todas eq_refl Hg).
  reflexivity.
Qed.

Lemma insert_ultimo {A} (k : list A) (x y : A) :
  <[length k := y]> (k ++ [x]) = k ++ [y].
Proof. induction k as [|z k IH]; simpl; [reflexivity | f_equal; exact IH]. Qed.

Lemma insert_no_meio {A} (l1 l2 : list A) (x y : A) :
  <[length l1 := y]> (l1 ++ x :: l2) = l1 ++ y :: l2.
Proof. induction l1 as [|z l1 IH]; simpl; [reflexivity | f_equal; exact IH]. Qed.

Section Categorias.
Context {U : Type} `{Upstream U}.
Variable σ0 : list objeto.

Lemma sim_para_cada_categoria itens mapping :
  Forall2 (fun e m =>
    fst e = fst m /\ σ0 !! snd e = Some (OLista (map PStr (snd m))))
    itens mapping ->
  forall (w : World U) inc k dT todas r w',
    guarda (length σ0) k dT todas ->
    DailyUpdater.para_cada_categoria mapping todas w = (r, w') ->
    exists dT' k',
      DailyUpdaterObjetos.para_cada_categoria (length σ0) itens
        (mkEstado w (σ0 ++ ODict dT :: k) inc)
      = (sem_valor r, mkEstado w' (σ0 ++ ODict dT' :: k') inc) /\
      forall todas', r = Val todas' -> guarda (length σ0) k' dT' todas'.
Proof.
  induction 1 as [|e m itens mapping (Hk & He) Hrest IH];
    intros w inc k dT todas r w' Hg E.
  - inversion E; subst. exists dT, k. split; [reflexivity|].
    intros todas' E'. inversion E'; subst. exact Hg.
  - destruct e as [categoria lc], m as [categoria' canais].
    simpl in Hk, He. subst categoria'.
    unfold DailyUpdater.para_cada_categoria in E. rewrite for_each_cons in E.
    fold (DailyUpdater.para_cada_categoria (U:=U) mapping) in E.
    unfold DailyUpdaterObjetos.para_cada_categoria. rewrite para_cada_cons.
    fold (DailyUpdaterObjetos.para_cada_categoria (U:=U) (length σ0) itens).
    set (P := (length σ0 + 1 + length k)%nat).
    set (sa := mkEstado w (σ0 ++ ODict dT :: (k ++ [OLista []])) inc).
    assert (HP : objetos sa !! P = Some (OLista [])).
    { unfold sa, P. cbn [objetos].
      replace (length σ0 + 1 + length k)%nat
        with (length σ0 + S (length k))%nat by lia.
      rewrite lookup_app_r by lia.
      replace (length σ0 + S (length k) - length σ0)%nat
        with (S (length k)) by lia.
      simpl. apply list_lookup_middle. reflexivity. }
    assert (Hal : alocar (OLista []) (mkEstado w (σ0 ++ ODict dT :: k) inc)
                  = (Val P, sa)).
    { unfold alocar, sa, P. cbn [objetos incompletos exterior]. f_equal.
      - f_equal. rewrite length_app. simpl. lia.
      - f_equal. rewrite <- app_assoc. reflexivity. }
    assert (Hit : iterar lc sa = (Val (map PStr canais), sa)).
    { unfold iterar, bindo, ler, sa. cbn [objetos incompletos exterior].
      rewrite lookup_app_l by (eapply lookup_lt_Some; exact He).
      rewrite He. reflexivity. }
    assert (Hcom : forall l w1,
      com_lista sa P l w1
      = mkEstado w1 (σ0 ++ ODict dT :: (k ++ [OLista l])) inc).
    { intros l w1. unfold com_lista, sa, P.
      cbn [objetos incompletos exterior]. f_equal.
      replace (length σ0 + 1 + length k)%nat
        with (length σ0 + S (length k))%nat by lia.
      rewrite insert_app_r. f_equal.
      change (<[S (length k):=OLista l]> (ODict dT :: (k ++ [OLista []])))
        with (ODict dT :: <[length k:=OLista l]> (k ++ [OLista []])).
      f_equal. apply insert_ultimo. }
    destruct (DailyUpdater.playlists_da_categoria canais w)
      as [[l|e] w1] eqn:Ec.
    + rewrite (bind_run _ _ _ (dict_set categoria (PList l) todas) w1) in E
        by (simpl; erewrite bind_run; [reflexivity | exact Ec]).
      destruct (sim_para_cada_canal canais [] sa P _ _ HP Ec)
        as (accf & Hrun & Hval).
      rewrite (Hval l eq_refl), Hcom in Hrun. simpl in Hrun.
      assert (Hg' : guarda (length σ0) (k ++ [OLista l])
                      (dict_set categoria P dT)
                      (dict_set categoria (PList l) todas)).
      { apply guarda_dict_set; [apply guarda_mais; exact Hg|].
        apply list_lookup_middle. reflexivity. }
      destruct (IH w1 inc (k ++ [OLista l]) (dict_set categoria P dT)
                   _ r w' Hg' E) as (dT' & k' & Hrun' & Hval').
      exists dT', k'. split; [|exact Hval'].
      erewrite bindo_run; [exact Hrun'|].
      erewrite bindo_run; [|exact Hal].
      erewrite bindo_run; [|exact Hit].
      erewrite bindo_run; [|exact Hrun].
      unfold setitem, bindo, ler, escrever.
      cbn [objetos incompletos exterior].
      rewrite list_lookup_middle by reflexivity.
      f_equal. f_equal. apply insert_no_meio.
    + rewrite (bind_raise _ _ _ e w1) in E
        by (simpl; erewrite bind_raise; [reflexivity | exact Ec]).
      inversion E; subst.
      destruct (sim_para_cada_canal canais [] sa P _ _ HP Ec)
        as (accf & Hrun & _).
      rewrite Hcom in Hrun. simpl in Hrun.
      exists dT, (k ++ [OLista accf]). split.
      * erewrite bindo_raise; [reflexivity|].
        erewrite bindo_run; [|exact Hal].
        erewrite bindo_run; [|exact Hit].
        erewrite bindo_raise; [reflexivity | exact Hrun].
      * intros todas' E'. discriminate E'.
Qed.

End Categorias.

(** ** The timestamp *)





(** ** The whole run, on objects *)


Section Inteiro.
Context {U : Type} `{Upstream U}.

(** The collection on objects, against the collection on values: the same
    searches and the same outcome; the objects that were there are still
    there, followed by the new dict and its new lists. *)
Lemma sim_coletar (s : Estado U) r w' :
  representa (objetos s) DailyUpdaterObjetos.categorias_canais
             DailyUpdater.categorias_canais ->
  DailyUpdater.para_cada_categoria DailyUpdater.categorias_canais []
    (exterior s) = (r, w') ->
  exists dT k,
    DailyUpdaterObjetos.coletar s
    = (match r with
       | Val _ => Val (length (objetos s))
       | Raise e => Raise e
       end,
       mkEstado w' (objetos s ++ ODict dT :: k) (incompletos s)) /\
    forall todas, r = Val todas -> guarda (length (objetos s)) k dT todas.
Proof.
  intros (entradas & Hl & Hf) E. destruct s as [w σ0 inc]. simpl in *.
  assert (Hg0 : guarda (length σ0) [] [] []) by constructor.
  destruct (sim_para_cada_categoria σ0 entradas _ Hf w inc [] [] [] r w' Hg0 E)
    as (dT & k & Hrun & Hval).
  exists dT, k. split; [|exact Hval].
  unfold DailyUpdaterObjetos.coletar.
  erewrite bindo_run; cycle 1.
  { unfold alocar. cbn [objetos incompletos exterior]. reflexivity. }
  erewrite bindo_run; cycle 1.
  { unfold items, bindo, ler. cbn [objetos incompletos exterior].
    rewrite (lookup_app_l_Some _ _ _ _ Hl). reflexivity. }
  destruct r as [todas|e]; simpl in Hrun.
  - erewrite bindo_run; [|exact Hrun]. reflexivity.
  - erewrite bindo_raise; [|exact Hrun]. reflexivity.
Qed.


(** On a file system that lets the writing through, the run on objects is
    the run on values. *)
Lemma objetos_seguem_valores (disco : Disco) (s : Estado U) r w' :
  representa (objetos s) DailyUpdaterObjetos.categorias_canais
             DailyUpdater.categorias_canais ->
  (forall name, abre disco name = None) ->
  (forall name doc, despeja disco name doc = None) ->
  DailyUpdater.atualizar_playlists (exterior s) = (r, w') ->
  exists s', DailyUpdaterObjetos.atualizar_playlists disco s = (r, s') /\
             exterior s' = w'.
Proof.
  intros Hrep Ha Hd E.
  destruct (DailyUpdater.para_cada_categoria DailyUpdater.categorias_canais []
              (exterior s)) as [[todas|e] w1] eqn:Ec.
  - destruct (sim_coletar s _ _ Hrep Ec) as (dT & k & Hrun & Hval).
    specialize (Hval todas eq_refl).
    unfold DailyUpdater.atualizar_playlists in E.
    rewrite (bind_run _ _ _ _ _ Ec) in E.
    unfold bind, datetime_now, write_json, print in E. simpl in E.
    inversion E; subst. eexists. split.
    + unfold DailyUpdaterObjetos.atualizar_playlists.
      rewrite (bindo_run _ _ _ _ _ Hrun).
      unfold bindo at 1, no_mundo at 1, datetime_now.
      cbn [objetos incompletos exterior].
      unfold bindo, gravar. cbn [objetos incompletos exterior].
      rewrite (congelar_guarda _ _ _ _ Hval), Ha, Hd.
      unfold no_mundo, print. cbn. reflexivity.
    + reflexivity.
  - destruct (sim_coletar s _ _ Hrep Ec) as (dT & k & Hrun & _).
    unfold DailyUpdater.atualizar_playlists in E.
    rewrite (bind_raise _ _ _ _ _ Ec) in E. inversion E; subst.
    eexists. split.
    + unfold DailyUpdaterObjetos.atualizar_playlists.
      rewrite (bindo_raise _ _ _ _ _ Hrun). reflexivity.
    + reflexivity.
Qed.


End Inteiro.



(** The completed run: the older document is still there, the new one is
    under the name the clock gives, with the eight records collected; the
    three objects of the module are as they were. *)
Example arquivo_escrito :
  files (exterior estado_atualizado) !! "playlists_2023-01-01_00-00-00.json"
  = Some (PDict []) /\
  files (exterior estado_atualizado) !! "playlists_2024-05-07_09-03-41.json"
  = Some (PDict [ ("Inteligência Artificial", PList lote_fixo);
                  ("Marketing Digital", PList lote_fixo) ]) /\
  size (files (exterior estado_atualizado)) = 2%nat /\
  take 3 (objetos estado_atualizado) = DailyUpdaterObjetos.modulo /\
  exterior estado_atualizado
  = snd (DailyUpdater.atualizar_playlists (exterior (estado_inicial tt))).
Proof. repeat split; vm_compute; reflexivity. Qed.

(** [open] refused: the run ends with its exception; no file is touched and
    nothing is printed, though the searches were made. *)
Example open_recusado :
  fst (DailyUpdaterObjetos.atualizar_playlists disco_fechado
         (estado_inicial tt)) = Raise OSError /\
  files (exterior (snd (DailyUpdaterObjetos.atualizar_playlists disco_fechado
                          (estado_inicial tt))))
  = files (exterior (estado_inicial tt)) /\
  stdout (exterior (snd (DailyUpdaterObjetos.atualizar_playlists disco_fechado
                           (estado_inicial tt)))) = [] /\
  length (trace (exterior (snd (DailyUpdaterObjetos.atualizar_playlists
                                  disco_fechado (estado_inicial tt)))))
  = 8%nat.
Proof. repeat split; vm_compute; reflexivity. Qed.

(** The writing interrupted: the file of that name is left unfinished, the
    older document is untouched, nothing is printed. *)
Example escrita_interrompida :
  fst (DailyUpdaterObjetos.atualizar_playlists disco_cheio
         (estado_inicial tt)) = Raise OSError /\
  elements (incompletos estado_interrompido)
  = ["playlists_2024-05-07_09-03-41.json"] /\
  files (exterior estado_interrompido)
  = files (exterior (estado_inicial tt)) /\
  stdout (exterior estado_interrompido) = [].
Proof. repeat split; vm_compute; reflexivity. Qed.
